(** * clazy: fix-it synthesis and check bodies of
      [qt4-qstring-from-array] and [qdatetime-utc]

    A shallow embedding of
    - [src/checks/qt4-qstring-from-array.cpp]
    - [src/checks/qdatetimeutc.cpp]
    - the interface declared in [src/FixItUtils.h]
    - the check classes declared in [src/checks/qset-intersects.h] and
      [src/src/checks/level2/ctor-missing-parent-argument.h]

    The compiler frontend (clang) is an external collaborator: source
    locations are modelled by their raw 32-bit encoding, the lexer query
    the checks use is an interface ([ClangFrontend]).  The helpers of this
    repository whose bodies are not among the sources embedded here
    (FixItUtils.cpp, Utils.cpp, checkbase.cpp) form a second interface
    ([ClazyUtils]); one instance of it is modelled from the specification. *)

From Stdlib Require Import ZArith Bool String List Lia.
From stdpp Require Import base option list gmap strings.

Local Open Scope string_scope.
Local Open Scope list_scope.
Local Open Scope Z_scope.

(* ===================================================================== *)
(** ** Source locations, ranges and fix-it hints (clang Basic)           *)
(* ===================================================================== *)

(** [clang::SourceLocation]: a 32-bit raw encoding; 0 is the invalid
    location, the top bit marks a macro location. *)
Record SourceLocation : Type := mkLoc { getRawEncoding : Z }.

Definition invalidLoc : SourceLocation := mkLoc 0.

Definition loc_isValid (l : SourceLocation) : bool :=
  negb (getRawEncoding l =? 0).

Definition loc_isInvalid (l : SourceLocation) : bool :=
  negb (loc_isValid l).

Definition MacroIDBit : Z := 2 ^ 31.

Definition loc_isMacroID (l : SourceLocation) : bool :=
  Z.testbit (getRawEncoding l) 31.

(** [SourceLocation::getLocWithOffset]: [L.ID = ID + Offset] on 32 bits. *)
Definition getLocWithOffset (l : SourceLocation) (Offset : Z) : SourceLocation :=
  mkLoc ((getRawEncoding l + Offset) mod 2 ^ 32).

(** [clang::SourceRange] *)
Record SourceRange : Type := mkRange { getBegin : SourceLocation; getEnd : SourceLocation }.

Definition range_isValid (r : SourceRange) : bool :=
  loc_isValid (getBegin r) && loc_isValid (getEnd r).

Definition range_isInvalid (r : SourceRange) : bool :=
  negb (range_isValid r).

(** [clang::FixItHint], the two factory functions the checks use. *)
Inductive FixItHint : Type :=
| CreateInsertion (at_ : SourceLocation) (text : string)
| CreateReplacement (range : SourceRange) (text : string).

Definition isInsertion (h : FixItHint) : bool :=
  match h with CreateInsertion _ _ => true | CreateReplacement _ _ => false end.

(* ===================================================================== *)
(** ** The AST as the checks query it (clang AST)                        *)
(* ===================================================================== *)

Record ParmVarDecl : Type := mkParm
  { getTypeAsString : string (* param->getType().getAsString() *) }.

Inductive DeclKind : Type :=
| FunctionKind | CXXMethodKind | CXXConstructorKind | CXXDestructorKind | CXXConversionKind.

(** [clang::FunctionDecl] and its subclasses, told apart by [getDeclKind]. *)
Record FunctionDecl : Type := mkFunctionDecl
  { getDeclKind : DeclKind;
    getParentName : string;             (* getParent()->getNameAsString() *)
    getNameAsString : string;
    getQualifiedNameAsString : string;
    parameters : list ParmVarDecl }.

(** [dyn_cast<CXXMethodDecl>]: constructors, destructors and conversions
    are methods as well. *)
Definition dyn_cast_CXXMethodDecl (f : FunctionDecl) : option FunctionDecl :=
  match getDeclKind f with
  | FunctionKind => None
  | _ => Some f
  end.

Definition getNumParams (f : FunctionDecl) : nat := length (parameters f).
Definition getParamDecl (f : FunctionDecl) (i : nat) : option ParmVarDecl := parameters f !! i.

Inductive StmtClass : Type :=
| CallExprClass
| CXXMemberCallExprClass
| CXXOperatorCallExprClass
| CXXConstructExprClass
| CXXBindTemporaryExprClass
| CXXFunctionalCastExprClass
| OtherStmtClass.

#[local] Set Warnings "-register-all".

(** A statement node.  [stmtId] stands for the node's identity (its
    address), the key of the parent map. *)
Inductive Stmt : Type := mkStmt
  { stmtId : positive;
    getStmtClass : StmtClass;
    getLocStart : SourceLocation;
    getLocEnd : SourceLocation;
    getCalleeDecl : option FunctionDecl;
    getImplicitObjectArgument : option Stmt;
    arguments : list Stmt }.

Definition isa_CallExpr (s : Stmt) : bool :=
  match getStmtClass s with
  | CallExprClass | CXXMemberCallExprClass | CXXOperatorCallExprClass => true
  | _ => false
  end.

Definition dyn_cast_CXXMemberCallExpr (s : Stmt) : option Stmt :=
  match getStmtClass s with CXXMemberCallExprClass => Some s | _ => None end.

Definition dyn_cast_CXXOperatorCallExpr (s : Stmt) : option Stmt :=
  match getStmtClass s with CXXOperatorCallExprClass => Some s | _ => None end.

Definition dyn_cast_CXXConstructExpr (s : Stmt) : option Stmt :=
  match getStmtClass s with CXXConstructExprClass => Some s | _ => None end.

Definition isa_CXXBindTemporaryExpr (s : Stmt) : bool :=
  match getStmtClass s with CXXBindTemporaryExprClass => true | _ => false end.

Definition isa_CXXFunctionalCastExpr (s : Stmt) : bool :=
  match getStmtClass s with CXXFunctionalCastExprClass => true | _ => false end.

(** [CallExpr::getDirectCallee], [CXXMemberCallExpr::getMethodDecl] and
    [CXXConstructExpr::getConstructor]. *)
Definition getDirectCallee (s : Stmt) : option FunctionDecl := getCalleeDecl s.

Definition getMethodDecl (s : Stmt) : option FunctionDecl :=
  getCalleeDecl s ≫= dyn_cast_CXXMethodDecl.

Definition getConstructor (s : Stmt) : option FunctionDecl :=
  match getCalleeDecl s with
  | Some d => match getDeclKind d with CXXConstructorKind => Some d | _ => None end
  | None => None
  end.

Definition getNumArgs (s : Stmt) : nat := length (arguments s).
Definition getArg (s : Stmt) (i : nat) : option Stmt := arguments s !! i.

(* ===================================================================== *)
(** ** What a check does: the calls it makes on [CheckBase]              *)
(* ===================================================================== *)

Inductive Event : Type :=
| EmitWarning (loc : SourceLocation) (message : string) (fixits : list FixItHint)
| QueueManualFixitWarning (loc : SourceLocation) (fixitType : Z)
| PrintLocation (loc : SourceLocation).

(** A computation of a check: [None] is undefined behaviour (reading past
    the end of a container); otherwise the value together with the calls
    made, in order. *)
Definition Check (A : Type) : Type := option (A * list Event).

Definition check_ret {A} (a : A) : Check A := Some (a, []).

Definition check_bind {A B} (m : Check A) (f : A -> Check B) : Check B :=
  match m with
  | None => None
  | Some (a, l1) =>
      match f a with
      | None => None
      | Some (b, l2) => Some (b, l1 ++ l2)
      end
  end.

Notation "'do' x <- m ; k" := (check_bind m (fun x => k))
  (at level 10, x name, m at level 100, k at level 200).
Notation "'perform' m ; k" := (check_bind m (fun _ => k))
  (at level 10, m at level 100, k at level 200).

Definition undefined {A} : Check A := None.

Definition deref {A} (o : option A) : Check A :=
  match o with Some a => check_ret a | None => undefined end.

Definition emitWarning (loc : SourceLocation) (message : string)
    (fixits : list FixItHint) : Check unit :=
  Some (tt, [EmitWarning loc message fixits]).

Definition queueManualFixitWarning (loc : SourceLocation) (fixitType : Z) : Check unit :=
  Some (tt, [QueueManualFixitWarning loc fixitType]).

Definition printLocation (loc : SourceLocation) : Check unit :=
  Some (tt, [PrintLocation loc]).

Definition events {A} (m : Check A) : option (list Event) := snd <$> m.
Definition result {A} (m : Check A) : option A := fst <$> m.

Definition isEmitWarning (e : Event) : bool :=
  match e with EmitWarning _ _ _ => true | _ => false end.
Definition isQueueManual (e : Event) : bool :=
  match e with QueueManualFixitWarning _ _ => true | _ => false end.

(** The part of a [CheckBase] object the two checks read. *)
Record CheckBase : Type := mkCheckBase
  { isFixitEnabled : Z -> bool;
    m_parentMap : gmap positive Stmt }.

(* ===================================================================== *)
(** ** Interfaces of the collaborators                                   *)
(* ===================================================================== *)

(** [clang::Lexer::getLocForEndOfToken (Loc, Offset, sm, langOpts)] for
    the compiler instance of the check; [Offset] is the argument as the
    call site writes it. *)
Class ClangFrontend : Type :=
  { getLocForEndOfToken : SourceLocation -> Z -> SourceLocation }.

(** Functions of this repository the checks call: [FixItUtils.h] declares
    the last three, [Utils.h] the first two. *)
Class ClazyUtils : Type :=
  { isOfClass : FunctionDecl -> string -> bool;
    callListForChain : Stmt -> list Stmt;
    biggestSourceLocationInStmt : Stmt -> SourceLocation;
    insertParentMethodCall : string -> SourceRange -> list FixItHint -> list FixItHint;
    transformTwoCallsIntoOneV2 : Stmt -> string -> list FixItHint -> bool * list FixItHint }.

(** Modelled from the spec: [HierarchyUtils::parent], whose header and
    body are not among the sources embedded here.  Section 4.2: parentOf(node)
    returns the immediate syntactic parent of the node, or none if the node
    is the root or unvisited; a null node has no parent. *)
Definition parent (map : gmap positive Stmt) (s : option Stmt) : option Stmt :=
  match s with
  | None => None
  | Some n => map !! stmtId n
  end.

Definition notNull {A} (p : option A) : bool :=
  match p with Some _ => true | None => false end.

(* ===================================================================== *)
(** ** src/checks/qt4-qstring-from-array.cpp                             *)
(* ===================================================================== *)

Module Qt4_QStringFromArray.

(** [enum FixIt { FixItNone, FixItToFromLatin1 }] *)
Definition FixItNone : Z := 0.
Definition FixItToFromLatin1 : Z := 1.

(** The reference parameters [is_char_array] and [is_byte_array] are
    returned next to the result: [(result, is_char_array, is_byte_array)]. *)
Definition isInterestingParam (param : ParmVarDecl) : bool * bool * bool :=
  let is_char_array := false in
  let is_byte_array := false in
  let typeStr := getTypeAsString param in
  let '(is_char_array, is_byte_array) :=
    if String.eqb typeStr "const class QByteArray &" then (is_char_array, true)
    else if String.eqb typeStr "const char *" then (true, is_byte_array)
    else (is_char_array, is_byte_array) in
  (is_char_array || is_byte_array, is_char_array, is_byte_array).

(** How one run of the parameter loop of [isInterestingCtorCall] ends. *)
Inductive LoopExit : Type :=
| LoopDone (is_char_array is_byte_array : bool)     (* [it == end], or [break] *)
| LoopReturn (r : bool) (is_char_array is_byte_array : bool).

(** [for (it = param_begin(); it != end; ++it) { if (...) break; return false; }]:
    the body leaves the loop on both of its paths, so the increment is
    never reached and the remaining parameters are not visited. *)
Definition ctorParamLoop (params : list ParmVarDecl)
    (is_char_array is_byte_array : bool) : LoopExit :=
  match params with
  | [] => LoopDone is_char_array is_byte_array
  | it :: _ =>
      let '(r, ca, ba) := isInterestingParam it in
      if r then LoopDone ca ba else LoopReturn false ca ba
  end.

Section WithCollaborators.
Context {frontend : ClangFrontend} {utils : ClazyUtils}.

Definition isInterestingCtorCall (ctor : option FunctionDecl) : bool * bool * bool :=
  let is_char_array := false in
  let is_byte_array := false in
  match ctor with
  | None => (false, is_char_array, is_byte_array)
  | Some c =>
      if negb (isOfClass c "QString") then (false, is_char_array, is_byte_array)
      else
        match ctorParamLoop (parameters c) is_char_array is_byte_array with
        | LoopReturn r ca ba => (r, ca, ba)
        | LoopDone ca ba => (ca || ba, ca, ba)
        end
  end.

Definition methods : list string :=
  [ "append"; "prepend"; "operator="; "operator=="; "operator!="; "operator<";
    "operator<="; "operator>"; "operator>="; "operator+=" ].

Definition isInterestingMethod (methodName : string) : bool :=
  existsb (String.eqb methodName) methods.

(** Returns [(result, methodName, is_char_array, is_byte_array)]; the
    incoming [methodName] is kept on the paths that do not assign it. *)
Definition isInterestingMethodCall (method : option FunctionDecl) (methodName : string)
    : Check (bool * string * bool * bool) :=
  let is_char_array := false in
  let is_byte_array := false in
  match method with
  | None => check_ret (false, methodName, is_char_array, is_byte_array)
  | Some m =>
      if negb (String.eqb (getParentName m) "QString") || negb (getNumParams m =? 1)%nat
      then check_ret (false, methodName, is_char_array, is_byte_array)
      else
        let methodName := getNameAsString m in
        if negb (isInterestingMethod methodName)
        then check_ret (false, methodName, is_char_array, is_byte_array)
        else
          do p <- deref (getParamDecl m 0);
          let '(r, ca, ba) := isInterestingParam p in
          if negb r then check_ret (false, methodName, ca, ba)
          else check_ret (true, methodName, ca, ba)
  end.

Definition isInterestingOperatorCall (op : Stmt) (operatorName : string)
    : Check (bool * string * bool * bool) :=
  let is_char_array := false in
  let is_byte_array := false in
  match getDirectCallee op with
  | None => check_ret (false, operatorName, is_char_array, is_byte_array)
  | Some func => isInterestingMethodCall (dyn_cast_CXXMethodDecl func) operatorName
  end.

Definition fixOperatorCall (op : Stmt) : Check (list FixItHint) :=
  let fixits : list FixItHint := [] in
  if (getNumArgs op =? 2)%nat then
    do e <- deref (getArg op 1);
    let start := getLocStart e in
    let end_ := getLocForEndOfToken (biggestSourceLocationInStmt e) 0 in
    let range := mkRange start end_ in
    if range_isInvalid range then
      perform emitWarning (getLocStart op) "internal error" [];
      check_ret []
    else
      check_ret (insertParentMethodCall "QString::fromLatin1" (mkRange start end_) fixits)
  else
    perform emitWarning (getLocStart op) "internal error" [];
    check_ret fixits.

Definition fixMethodCallCall (memberExpr : Stmt) : Check (list FixItHint) :=
  let fixits : list FixItHint := [] in
  if (getNumArgs memberExpr =? 1)%nat then
    do e <- deref (getArg memberExpr 0);
    let start := getLocStart e in
    let end_ := getLocForEndOfToken (biggestSourceLocationInStmt e) 0 in
    let range := mkRange start end_ in
    if range_isInvalid range then
      perform emitWarning (getLocStart memberExpr) "internal error" [];
      check_ret []
    else
      check_ret (insertParentMethodCall "QString::fromLatin1" (mkRange start end_) fixits)
  else
    perform emitWarning (getLocStart memberExpr) "internal error" [];
    check_ret fixits.

Definition replacement : string := "QString::fromLatin1".
Definition replacee : string := "QString".

(** [replacee.size() - 2]: a [size_t] difference, passed as an [int]. *)
Definition fallbackOffset : Z :=
  let d := (Z.of_nat (String.length replacee) - 2) mod 2 ^ 64 in
  let i := d mod 2 ^ 32 in
  if i <? 2 ^ 31 then i else i - 2 ^ 32.

Definition fixitReplaceWithFromLatin1 (ctorExpr : Stmt) : Check (list FixItHint) :=
  let fixits : list FixItHint := [] in
  let push_back rangeStart rangeEnd :=
    check_ret (fixits ++ [CreateReplacement (mkRange rangeStart rangeEnd) replacement]) in
  let rangeStart := getLocStart ctorExpr in
  let rangeEnd := getLocForEndOfToken rangeStart (-1) in
  if loc_isInvalid rangeEnd then
    (* Fallback. Have seen a case in the wild where the above would fail *)
    let rangeEnd := getLocWithOffset rangeStart fallbackOffset in
    if loc_isInvalid rangeEnd then
      perform printLocation rangeStart;
      perform printLocation rangeEnd;
      perform printLocation (getLocForEndOfToken rangeStart 0);
      perform queueManualFixitWarning (getLocStart ctorExpr) FixItToFromLatin1;
      check_ret []
    else push_back rangeStart rangeEnd
  else push_back rangeStart rangeEnd.

Definition fixitInsertFromLatin1 (ctorExpr : Stmt) : Check (list FixItHint) :=
  let fixits : list FixItHint := [] in
  do arg <- deref (getArg ctorExpr 0);
  let range :=
    mkRange (getLocStart arg)
            (getLocForEndOfToken (biggestSourceLocationInStmt ctorExpr) 0) in
  if range_isInvalid range then
    perform emitWarning (getLocStart ctorExpr) "Internal error" [];
    check_ret []
  else
    check_ret (insertParentMethodCall "QString::fromLatin1" range fixits).

Definition fixCtorCall (this : CheckBase) (ctorExpr : Stmt) : Check (list FixItHint) :=
  let parent_ := parent (m_parentMap this) (Some ctorExpr) in      (* CXXBindTemporaryExpr *)
  let grandParent := parent (m_parentMap this) parent_ in          (* CXXFunctionalCastExpr *)
  match parent_, grandParent with
  | Some p, Some g =>
      if isa_CXXBindTemporaryExpr p && isa_CXXFunctionalCastExpr g
      then fixitReplaceWithFromLatin1 ctorExpr
      else fixitInsertFromLatin1 ctorExpr
  | _, _ => fixitInsertFromLatin1 ctorExpr
  end.

Definition VisitStmt (this : CheckBase) (stm : Stmt) : Check unit :=
  let ctorExpr := dyn_cast_CXXConstructExpr stm in
  let operatorCall := dyn_cast_CXXOperatorCallExpr stm in
  let memberCall := dyn_cast_CXXMemberCallExpr stm in
  if negb (notNull ctorExpr) && negb (notNull operatorCall) && negb (notNull memberCall)
  then check_ret tt
  else
    let methodName := "" in
    let message := "" in
    (* the statements after the if/else-if chain *)
    let finish (fixits : list FixItHint) (is_char_array : bool)
               (methodName message : string) : Check unit :=
      let message :=
        if notNull operatorCall || notNull memberCall then
          if is_char_array
          then String.append "QString::" (String.append methodName "(const char *) being called")
          else String.append "QString::" (String.append methodName "(QByteArray) being called")
        else message in
      emitWarning (getLocStart stm) message fixits in
    match ctorExpr, operatorCall, memberCall with
    | Some ctorExpr, _, _ =>
        let ctorDecl := getConstructor ctorExpr in
        let '(r, is_char_array, is_byte_array) := isInterestingCtorCall ctorDecl in
        if negb r then check_ret tt
        else
          do fixits <- fixCtorCall this ctorExpr;
          let message :=
            if is_char_array then "QString(const char *) ctor being called"
            else "QString(QByteArray) ctor being called" in
          finish fixits is_char_array methodName message
    | None, Some operatorCall, _ =>
        do r <- isInterestingOperatorCall operatorCall methodName;
        let '(ok, methodName, is_char_array, is_byte_array) := r in
        if negb ok then check_ret tt
        else
          do fixits <- fixOperatorCall operatorCall;
          finish fixits is_char_array methodName message
    | None, None, Some memberCall =>
        do r <- isInterestingMethodCall (getMethodDecl memberCall) methodName;
        let '(ok, methodName, is_char_array, is_byte_array) := r in
        if negb ok then check_ret tt
        else
          do fixits <- fixMethodCallCall memberCall;
          finish fixits is_char_array methodName message
    | None, None, None => check_ret tt
    end.

End WithCollaborators.

End Qt4_QStringFromArray.

(* ===================================================================== *)
(** ** src/checks/qdatetimeutc.cpp                                       *)
(* ===================================================================== *)

Module QDateTimeUtc.

(** [enum Fixit { FixitNone = 0, FixitAll = 0x1 }] *)
Definition FixitNone : Z := 0.
Definition FixitAll : Z := 1.

Section WithCollaborators.
Context {frontend : ClangFrontend} {utils : ClazyUtils}.

(** The replacement text built before the fix-it is asked for. *)
Definition replacementFor (isTimeT : bool) : string :=
  let replacement := "::currentDateTimeUtc()" in
  if isTimeT then String.append replacement ".toTime_t()" else replacement.

Definition VisitStmt (this : CheckBase) (stmt : Stmt) : Check unit :=
  match dyn_cast_CXXMemberCallExpr stmt with
  | None => check_ret tt
  | Some secondCall =>
    match getMethodDecl secondCall with
    | None => check_ret tt
    | Some secondMethod =>
      let secondMethodName := getQualifiedNameAsString secondMethod in
      let isTimeT := String.eqb secondMethodName "QDateTime::toTime_t" in
      if negb isTimeT && negb (String.eqb secondMethodName "QDateTime::toUTC")
      then check_ret tt
      else
        let chainedCalls := callListForChain secondCall in
        if (length chainedCalls <? 2)%nat then check_ret tt
        else
          do firstCall <- deref (chainedCalls !! (length chainedCalls - 1)%nat);
          match getDirectCallee firstCall with
          | None => check_ret tt
          | Some firstFunc =>
            match dyn_cast_CXXMethodDecl firstFunc with
            | None => check_ret tt
            | Some firstMethod =>
              if negb (String.eqb (getQualifiedNameAsString firstMethod)
                                  "QDateTime::currentDateTime")
              then check_ret tt
              else
                let replacement := replacementFor isTimeT in
                do fixits <-
                  (if isFixitEnabled this FixitAll then
                     let '(success, fixits) :=
                       transformTwoCallsIntoOneV2 secondCall replacement [] in
                     perform (if negb success
                              then queueManualFixitWarning (getLocStart secondCall) FixitAll
                              else check_ret tt);
                     check_ret fixits
                   else check_ret []);
                emitWarning (getLocStart stmt)
                  (String.append "Use QDateTime" (String.append replacement " instead"))
                  fixits
            end
          end
    end
  end.

End WithCollaborators.

End QDateTimeUtc.

(* ===================================================================== *)
(** ** The helpers whose bodies are absent, modelled from the spec       *)
(* ===================================================================== *)

Module SpecModel.

Definition loc_max (a b : SourceLocation) : SourceLocation :=
  if getRawEncoding a <? getRawEncoding b then b else a.

(** Modelled from the spec: [FixItUtils::biggestSourceLocationInStmt]
    (body in FixItUtils.cpp, absent).  Section 4.1, deepestSourceLocation:
    recursively visits every descendant of a statement and returns the
    maximum (rightmost) source location encountered. *)
Fixpoint biggestSourceLocationInStmt (stmt : Stmt) : SourceLocation :=
  match stmt with
  | mkStmt _ _ _ locEnd _ receiver args =>
      let fix overChildren (cs : list Stmt) (biggestLoc : SourceLocation) :=
        match cs with
        | [] => biggestLoc
        | child :: cs' =>
            overChildren cs' (loc_max biggestLoc (biggestSourceLocationInStmt child))
        end in
      overChildren args
        match receiver with
        | Some r => loc_max locEnd (biggestSourceLocationInStmt r)
        | None => locEnd
        end
  end.

(** Modelled from the spec: [FixItUtils::insertParentMethodCall] (body in
    FixItUtils.cpp, absent).  FixItUtils.h: transforms foo into
    method(foo), by inserting "method(" at the beginning, and ')' at the
    end.  Section 4.5, wrap-in-call: two insertions, [M(] immediately
    before the span and [)] immediately after it. *)
Definition insertParentMethodCall (method : string) (range : SourceRange)
    (fixits : list FixItHint) : list FixItHint :=
  fixits ++ [ CreateInsertion (getBegin range) (String.append method "(");
              CreateInsertion (getEnd range) ")" ].

(** Modelled from the spec: [FixItUtils::transformTwoCallsIntoOneV2] (body
    in FixItUtils.cpp, absent).  FixItUtils.h: this version basically
    replaces everything from start to end with baz.  Section 4.5,
    collapse-chain variant 2: given only the trailing member call B and a
    full replacement text C, replaces the entire span from the start of the
    chain through the end of B with C verbatim; every synthesis function
    returns success with edits or failure with nothing, and an invalid
    range is a failure (section 7). *)
Definition transformTwoCallsIntoOneV2 (bar : Stmt) (baz : string)
    (fixits : list FixItHint) : bool * list FixItHint :=
  let range := mkRange (getLocStart bar) (getLocEnd bar) in
  if range_isInvalid range then (false, fixits)
  else (true, fixits ++ [CreateReplacement range baz]).

(** Modelled from the spec: [Utils::callListForChain] (body in Utils.cpp,
    absent).  Section 3, CallChain: the sequence of call nodes of
    [a().b().c()], derived on demand by walking the receiver expression of
    a call backward.  The calls are listed in the order the walk meets
    them, starting at the call it is given: this is the order the caller in
    qdatetimeutc.cpp relies on, which names the element at the last index
    [firstCall] and matches it against [QDateTime::currentDateTime]. *)
Fixpoint callListForChain (lastCallExpr : Stmt) : list Stmt :=
  match lastCallExpr with
  | mkStmt _ _ _ _ _ receiver _ =>
      lastCallExpr ::
        match receiver with
        | Some r => if isa_CallExpr r then callListForChain r else []
        | None => []
        end
  end.

(** Modelled from the spec: [isOfClass] (Utils.h, absent).  Section 6:
    a method resolves to its declaring type; the method is of class
    [className] when that type is named so. *)
Definition isOfClass (method : FunctionDecl) (className : string) : bool :=
  String.eqb (getParentName method) className.

Definition utils : ClazyUtils :=
  Build_ClazyUtils isOfClass callListForChain biggestSourceLocationInStmt
                   insertParentMethodCall transformTwoCallsIntoOneV2.

(** A frontend over a buffer whose token at a location is [tokenLength]
    characters long, after [Lexer::getLocForEndOfToken]: invalid for an
    invalid location and for a location inside a macro expansion (every
    macro location is taken to be one); otherwise the location moved
    forward by the token length less the offset, the offset being read as
    unsigned. *)
Definition lexer (tokenLength : SourceLocation -> Z) : ClangFrontend :=
  {| getLocForEndOfToken Loc Offset :=
       let Offset := Offset mod 2 ^ 32 in
       if loc_isInvalid Loc then invalidLoc
       else if loc_isMacroID Loc then invalidLoc
       else if Offset <? tokenLength Loc
            then getLocWithOffset Loc (tokenLength Loc - Offset)
            else Loc |}.

End SpecModel.

(* ===================================================================== *)
(** ** The check classes of the headers, and the dispatch loop           *)
(* ===================================================================== *)

Module Dispatch.

Inductive NodeKind : Type := DeclarationNode | StatementNode.

(** A node of the translation unit's tree, as the walk sees it. *)
Inductive ASTNode : Type := mkNode
  { nodeKind : NodeKind;
    nodeId : positive;
    nodeChildren : list ASTNode }.

(** A check class: which of the two virtual callbacks of [CheckBase] it
    overrides. *)
Record CheckClass : Type := mkCheckClass
  { className : string;
    overridesVisitDecl : bool;
    overridesVisitStmt : bool }.

(** src/checks/qset-intersects.h: [void VisitStmt(clang::Stmt *stmt) override;] *)
Definition QSetIntersects : CheckClass :=
  {| className := "QSetIntersects"; overridesVisitDecl := false; overridesVisitStmt := true |}.

(** src/src/checks/level2/ctor-missing-parent-argument.h:
    [void VisitDecl(clang::Decl *decl) override;] *)
Definition CtorMissingParentArgument : CheckClass :=
  {| className := "CtorMissingParentArgument";
     overridesVisitDecl := true; overridesVisitStmt := false |}.

(** src/checks/ruleofbase.h overrides neither callback. *)
Definition RuleOfBase : CheckClass :=
  {| className := "RuleOfBase"; overridesVisitDecl := false; overridesVisitStmt := false |}.

(** The declared interest of a check in a kind of node. *)
Definition interestedIn (c : CheckClass) (k : NodeKind) : bool :=
  match k with
  | DeclarationNode => overridesVisitDecl c
  | StatementNode => overridesVisitStmt c
  end.

(** One invocation of a visit callback: the check and the node it is
    handed. *)
Record Invocation : Type := mkInvocation
  { invokedCheck : CheckClass;
    visitedNode : ASTNode }.

Definition visitNode (checks : list CheckClass) (n : ASTNode) : list Invocation :=
  List.map (fun c => mkInvocation c n)
           (List.filter (fun c => interestedIn c (nodeKind n)) checks).

(** Modelled from the spec: the check dispatch loop (its code is absent).
    Section 4.4: the loop enumerates every declaration and statement node
    exactly once, in the tree's natural (outer-to-inner, left-to-right)
    order, and for each node invokes every enabled check whose declared
    interest matches the node's kind.  [checks] are the enabled checks;
    the result lists the invocations in order. *)
Fixpoint dispatch (checks : list CheckClass) (n : ASTNode) : list Invocation :=
  match n with
  | mkNode _ _ cs =>
      visitNode checks n ++
      (fix overChildren (l : list ASTNode) : list Invocation :=
         match l with
         | [] => []
         | c :: l' => dispatch checks c ++ overChildren l'
         end) cs
  end.

End Dispatch.

(* ===================================================================== *)
(** ** Concrete inputs                                                   *)
(* ===================================================================== *)

Module Examples.

(** Token lengths of the buffer the examples live in: [QString] at 200,
    the literal ["abc"] at 208 and at 305; one character elsewhere. *)
Definition tokenLength (l : SourceLocation) : Z :=
  match getRawEncoding l with
  | 200 => 7
  | 208 => 5
  | 305 => 5
  | _ => 1
  end.

Definition frontend : ClangFrontend := SpecModel.lexer tokenLength.

Definition allFixitsOn (pm : gmap positive Stmt) : CheckBase :=
  {| isFixitEnabled := fun _ => true; m_parentMap := pm |}.

(** [QDateTime::currentDateTime().toTime_t()] written at offset 100; the
    end location of a node is the start of its last token. *)
Definition currentDateTimeDecl : FunctionDecl :=
  mkFunctionDecl CXXMethodKind "QDateTime" "currentDateTime" "QDateTime::currentDateTime" [].
Definition toTime_tDecl : FunctionDecl :=
  mkFunctionDecl CXXMethodKind "QDateTime" "toTime_t" "QDateTime::toTime_t" [].
Definition toUTCDecl : FunctionDecl :=
  mkFunctionDecl CXXMethodKind "QDateTime" "toUTC" "QDateTime::toUTC" [].

Definition currentDateTimeCall : Stmt :=
  mkStmt 2 CallExprClass (mkLoc 100) (mkLoc 126) (Some currentDateTimeDecl) None [].
Definition toTime_tChain : Stmt :=
  mkStmt 1 CXXMemberCallExprClass (mkLoc 100) (mkLoc 137) (Some toTime_tDecl)
         (Some currentDateTimeCall) [].

(** [QDateTime::currentDateTime().toUTC()] at the same place *)
Definition toUTCChain : Stmt :=
  mkStmt 1 CXXMemberCallExprClass (mkLoc 100) (mkLoc 134) (Some toUTCDecl)
         (Some currentDateTimeCall) [].

(** The first chain with an end location that is not valid. *)
Definition toTime_tChainNoEnd : Stmt :=
  mkStmt 1 CXXMemberCallExprClass (mkLoc 100) invalidLoc (Some toTime_tDecl)
         (Some currentDateTimeCall) [].

(** The constructor of QString from a character array, its comparison
    operator with one, and [QString::append] of a byte array. *)
Definition QStringCtorDecl : FunctionDecl :=
  mkFunctionDecl CXXConstructorKind "QString" "QString" "QString::QString"
                 [mkParm "const char *"].
Definition operatorEqDecl : FunctionDecl :=
  mkFunctionDecl CXXMethodKind "QString" "operator==" "QString::operator=="
                 [mkParm "const char *"].
Definition appendDecl : FunctionDecl :=
  mkFunctionDecl CXXMethodKind "QString" "append" "QString::append"
                 [mkParm "const class QByteArray &"].

(** A one-token expression. *)
Definition token (id : positive) (at_ : SourceLocation) : Stmt :=
  mkStmt id OtherStmtClass at_ at_ None None [].

(** A location inside a macro expansion. *)
Definition macroLoc (n : Z) : SourceLocation := mkLoc (MacroIDBit + n).

(** [QString("abc")] starting at [start], the literal at 208 and the
    closing parenthesis at 213 *)
Definition ctorCall (start : SourceLocation) : Stmt :=
  mkStmt 10 CXXConstructExprClass start (mkLoc 213) (Some QStringCtorDecl) None
         [token 11 (mkLoc 208)].

(** [QString(MACRO)]: the argument comes out of a macro expansion *)
Definition ctorCallOnMacro : Stmt :=
  mkStmt 10 CXXConstructExprClass (mkLoc 200) (mkLoc 213) (Some QStringCtorDecl) None
         [token 11 (macroLoc 30)].

Definition bindTemporary : Stmt :=
  mkStmt 12 CXXBindTemporaryExprClass (mkLoc 200) (mkLoc 213) None None [].
Definition functionalCast : Stmt :=
  mkStmt 13 CXXFunctionalCastExprClass (mkLoc 200) (mkLoc 213) None None [].

(** The parent map of the temporary [QString("abc")], and that of the
    initializer in a variable declaration. *)
Definition temporaryContext : gmap positive Stmt :=
  <[10%positive := bindTemporary]> (<[12%positive := functionalCast]> ∅).
Definition initializerContext : gmap positive Stmt :=
  <[10%positive := mkStmt 14 OtherStmtClass (mkLoc 190) (mkLoc 214) None None []]> ∅.

(** [s == "abc"] at 300, the literal at 305 *)
Definition operatorCall : Stmt :=
  mkStmt 20 CXXOperatorCallExprClass (mkLoc 300) (mkLoc 305) (Some operatorEqDecl) None
         [token 21 (mkLoc 300); token 22 (mkLoc 305)].

(** [s == MACRO]: the right operand comes out of a macro expansion *)
Definition operatorCallOnMacro : Stmt :=
  mkStmt 20 CXXOperatorCallExprClass (mkLoc 300) (mkLoc 305) (Some operatorEqDecl) None
         [token 21 (mkLoc 300); token 22 (macroLoc 40)].

(** An operator call node with a single operand, a member call
    [s.append()] without argument, and [s.append(MACRO)]. *)
Definition operatorCallOneArg : Stmt :=
  mkStmt 23 CXXOperatorCallExprClass (mkLoc 320) (mkLoc 321) (Some operatorEqDecl) None
         [token 24 (mkLoc 321)].
Definition memberCallNoArg : Stmt :=
  mkStmt 25 CXXMemberCallExprClass (mkLoc 340) (mkLoc 349) (Some appendDecl)
         (Some (token 26 (mkLoc 340))) [].
Definition memberCallOnMacro : Stmt :=
  mkStmt 27 CXXMemberCallExprClass (mkLoc 360) (mkLoc 375) (Some appendDecl)
         (Some (token 28 (mkLoc 360)))
         [token 29 (macroLoc 50)].

(** A free function [operator==] taking a character array. *)
Definition freeOperatorCall : Stmt :=
  mkStmt 30 CXXOperatorCallExprClass (mkLoc 400) (mkLoc 405)
         (Some (mkFunctionDecl FunctionKind "" "operator==" "operator=="
                  [mkParm "const char *"])) None
         [token 31 (mkLoc 400); token 32 (mkLoc 405)].

(** [s.append("abc")] with the literal of [operatorCall] as argument *)
Definition memberCall : Stmt :=
  mkStmt 33 CXXMemberCallExprClass (mkLoc 296) (mkLoc 310) (Some appendDecl)
         (Some (token 34 (mkLoc 296))) [token 22 (mkLoc 305)].

(** A check object with every fixit disabled. *)
Definition allFixitsOff : CheckBase :=
  {| isFixitEnabled := fun _ => false; m_parentMap := ∅ |}.

(** A translation unit with declarations and statements mixed: a
    declaration holding a statement that holds a declaration and a
    statement. *)
Definition mixedTree : Dispatch.ASTNode :=
  Dispatch.mkNode Dispatch.DeclarationNode 1
    [ Dispatch.mkNode Dispatch.StatementNode 2
        [ Dispatch.mkNode Dispatch.DeclarationNode 3 [];
          Dispatch.mkNode Dispatch.StatementNode 4 [] ] ].

Definition enabledChecks : list Dispatch.CheckClass :=
  [ Dispatch.QSetIntersects; Dispatch.CtorMissingParentArgument; Dispatch.RuleOfBase ].

End Examples.

(* ===================================================================== *)
(** ** Vocabulary of the statements                                      *)
(* ===================================================================== *)

Section Vocabulary.
Context {frontend : ClangFrontend} {utils : ClazyUtils}.
Import QDateTimeUtc.

(** The constructor call is used as a temporary: its parent is a
    bind-temporary node and its grandparent a functional-cast node. *)
Definition boundAndCast (map : gmap positive Stmt) (ctorExpr : Stmt) : Prop :=
  exists p g,
    map !! stmtId ctorExpr = Some p /\ map !! stmtId p = Some g /\
    getStmtClass p = CXXBindTemporaryExprClass /\
    getStmtClass g = CXXFunctionalCastExprClass.

(** The pattern of the check, in words: a member call whose resolved
    method is [QDateTime::toTime_t] ([isTimeT]) or [QDateTime::toUTC], whose
    call chain has at least two elements, the last of which resolves to a
    method named [QDateTime::currentDateTime]. *)
Definition chainMatches (stmt : Stmt) (isTimeT : bool) : Prop :=
  getStmtClass stmt = CXXMemberCallExprClass /\
  (exists m, getMethodDecl stmt = Some m /\
             getQualifiedNameAsString m =
               if isTimeT then "QDateTime::toTime_t" else "QDateTime::toUTC") /\
  (2 <= length (callListForChain stmt))%nat /\
  (exists firstCall firstMethod,
      last (callListForChain stmt) = Some firstCall /\
      getDirectCallee firstCall = Some firstMethod /\
      getDeclKind firstMethod <> FunctionKind /\
      getQualifiedNameAsString firstMethod = "QDateTime::currentDateTime").

(** What [VisitStmt] does once the pattern is recognised (the statements
    that follow the last early return). *)
Definition report (this : CheckBase) (stmt : Stmt) (isTimeT : bool) : Check unit :=
  let replacement := replacementFor isTimeT in
  do fixits <-
    (if isFixitEnabled this FixitAll then
       let '(success, fixits) := transformTwoCallsIntoOneV2 stmt replacement [] in
       perform (if negb success
                then queueManualFixitWarning (getLocStart stmt) FixitAll
                else check_ret tt);
       check_ret fixits
     else check_ret []);
  emitWarning (getLocStart stmt)
    (String.append "Use QDateTime" (String.append replacement " instead")) fixits.

(** The manual-fixit notice recorded by [report], if any. *)
Definition manualNotice (this : CheckBase) (stmt : Stmt) (isTimeT : bool) : list Event :=
  if isFixitEnabled this FixitAll &&
     negb (fst (transformTwoCallsIntoOneV2 stmt (replacementFor isTimeT) []))
  then [QueueManualFixitWarning (getLocStart stmt) FixitAll]
  else [].

(** The edits attached to the warning of [report]. *)
Definition attachedFixits (this : CheckBase) (stmt : Stmt) (isTimeT : bool) : list FixItHint :=
  if isFixitEnabled this FixitAll
  then snd (transformTwoCallsIntoOneV2 stmt (replacementFor isTimeT) [])
  else [].

(** The anti-pattern of qt4-qstring-from-array is matched at [stm]: an
    interesting constructor, operator or method call, with the flag and the
    method name the classification returns. *)
Definition qt4Matches (stm : Stmt) (is_char_array : bool) (methodName : string) : Prop :=
  match getStmtClass stm with
  | CXXConstructExprClass =>
      methodName = "" /\
      exists ba, Qt4_QStringFromArray.isInterestingCtorCall (getConstructor stm)
                 = (true, is_char_array, ba)
  | CXXOperatorCallExprClass =>
      exists ba, result (Qt4_QStringFromArray.isInterestingOperatorCall stm "")
                 = Some (true, methodName, is_char_array, ba)
  | CXXMemberCallExprClass =>
      exists ba, result (Qt4_QStringFromArray.isInterestingMethodCall (getMethodDecl stm) "")
                 = Some (true, methodName, is_char_array, ba)
  | _ => False
  end.

(** The synthesis routine [Qt4_QStringFromArray::VisitStmt] runs for a
    node of each class. *)
Definition qt4Fix (this : CheckBase) (stm : Stmt) : Check (list FixItHint) :=
  match getStmtClass stm with
  | CXXConstructExprClass => Qt4_QStringFromArray.fixCtorCall this stm
  | CXXOperatorCallExprClass => Qt4_QStringFromArray.fixOperatorCall stm
  | CXXMemberCallExprClass => Qt4_QStringFromArray.fixMethodCallCall stm
  | _ => undefined
  end.

(** The text of the diagnostic of qt4-qstring-from-array. *)
Definition qt4Message (stm : Stmt) (is_char_array : bool) (methodName : string) : string :=
  match getStmtClass stm with
  | CXXConstructExprClass =>
      if is_char_array then "QString(const char *) ctor being called"
      else "QString(QByteArray) ctor being called"
  | _ =>
      if is_char_array
      then String.append "QString::" (String.append methodName "(const char *) being called")
      else String.append "QString::" (String.append methodName "(QByteArray) being called")
  end.

(** A diagnostic event is attached to the location [loc]; printing a
    location to the error stream is not a diagnostic. *)
Definition diagnosedAt (loc : SourceLocation) (e : Event) : Prop :=
  match e with
  | EmitWarning l _ _ => l = loc
  | QueueManualFixitWarning l _ => l = loc
  | PrintLocation _ => True
  end.

(** The call a chain starts with, [a()] in [a().b().c()]: the call reached
    from a call by following the receiver for as long as the receiver is a
    call.  The specification names it the outermost call of the chain,
    qdatetimeutc.cpp names it [firstCall]. *)
Fixpoint outermostCall (call : Stmt) : Stmt :=
  match call with
  | mkStmt _ _ _ _ _ receiver _ =>
      match receiver with
      | Some r => if isa_CallExpr r then outermostCall r else call
      | None => call
      end
  end.

End Vocabulary.

(* ===================================================================== *)
(** ** Theorems                                                          *)
(* ===================================================================== *)

Lemma string_eqb_true (a b : string) : String.eqb a b = true <-> a = b.
Proof. apply String.eqb_eq. Qed.

Lemma string_eqb_false (a b : string) : String.eqb a b = false <-> a <> b.
Proof. apply String.eqb_neq. Qed.

Lemma range_isInvalid_spec (r : SourceRange) :
  range_isInvalid r = true <->
  loc_isValid (getBegin r) = false \/ loc_isValid (getEnd r) = false.
Proof.
  unfold range_isInvalid, range_isValid.
  destruct (loc_isValid (getBegin r)), (loc_isValid (getEnd r)); simpl; intuition congruence.
Qed.

(** Case split on the validity test of the range a routine computed. *)
Ltac case_range :=
  match goal with
  | |- context [range_isInvalid ?r] => destruct (range_isInvalid r) eqn:?
  end.

Section Qt4_QStringFromArray_facts.
Context {frontend : ClangFrontend} {utils : ClazyUtils}.
Import Qt4_QStringFromArray.

Lemma isInterestingParam_true (p : ParmVarDecl) :
  fst (fst (isInterestingParam p)) = true <->
  getTypeAsString p = "const class QByteArray &" \/ getTypeAsString p = "const char *".
Proof.
  unfold isInterestingParam.
  destruct (String.eqb (getTypeAsString p) "const class QByteArray &") eqn:Eb.
  - simpl. apply string_eqb_true in Eb. tauto.
  - destruct (String.eqb (getTypeAsString p) "const char *") eqn:Ec; simpl.
    + apply string_eqb_true in Ec. tauto.
    + apply string_eqb_false in Eb, Ec. split; [discriminate | tauto].
Qed.

(** The flags returned with a positive answer: exactly one of them is set. *)
Lemma isInterestingParam_flags (p : ParmVarDecl) r ca ba :
  isInterestingParam p = (r, ca, ba) -> r = (ca || ba) /\ (ca && ba = false).
Proof.
  unfold isInterestingParam.
  destruct (String.eqb _ "const class QByteArray &"); [|destruct (String.eqb _ "const char *")];
    simpl; intros [= <- <- <-]; auto.
Qed.

(** C9: [isInterestingCtorCall] answers true exactly for a non-null
    constructor of class QString that has a first parameter whose type
    prints as [const class QByteArray &] or [const char *]; the parameters
    after the first are never examined: two constructors that agree on
    [isOfClass] and on their first parameter get the same answer and flags,
    and a first parameter of another type gives false whatever follows. *)
Theorem C9_isInterestingCtorCall_first_parameter_only :
  (forall ctor : option FunctionDecl,
      fst (fst (isInterestingCtorCall ctor)) = true <->
      exists c p rest,
        ctor = Some c /\ isOfClass c "QString" = true /\ parameters c = p :: rest /\
        (getTypeAsString p = "const class QByteArray &" \/
         getTypeAsString p = "const char *")) /\
  (forall c c' : FunctionDecl,
      isOfClass c "QString" = isOfClass c' "QString" ->
      head (parameters c) = head (parameters c') ->
      isInterestingCtorCall (Some c) = isInterestingCtorCall (Some c')) /\
  (forall (c : FunctionDecl) p rest,
      parameters c = p :: rest ->
      getTypeAsString p <> "const class QByteArray &" ->
      getTypeAsString p <> "const char *" ->
      fst (fst (isInterestingCtorCall (Some c))) = false).
Proof.
  split; [|split].
  - intros [c|]; simpl.
    + destruct (isOfClass c "QString") eqn:Ecls; simpl.
      * unfold ctorParamLoop. destruct (parameters c) as [|p rest] eqn:Eps; simpl.
        -- split; [discriminate|]. intros (c0 & p & rest & [= <-] & _ & Hps & _).
           congruence.
        -- pose proof (isInterestingParam_true p) as Hp.
           destruct (isInterestingParam p) as [[r ca] ba] eqn:Eip.
           pose proof (isInterestingParam_flags _ _ _ _ Eip) as [Hr _].
           simpl in Hp. destruct r; simpl.
           ++ rewrite <- Hr. split; [|reflexivity]. intros _.
              exists c, p, rest. intuition.
           ++ split; [discriminate|].
              intros (c0 & p0 & rest0 & [= <-] & _ & Hps & Hty).
              rewrite Eps in Hps. injection Hps as <- <-.
              apply Hp in Hty. discriminate.
      * split; [discriminate|]. intros (c0 & p & rest & [= <-] & Hc & _). congruence.
    + split; [discriminate|]. intros (c0 & p & rest & [=] & _).
  - intros c c' Hcls Hhd. simpl. rewrite Hcls.
    destruct (isOfClass c' "QString"); simpl; [|reflexivity].
    unfold ctorParamLoop.
    destruct (parameters c) as [|p rest], (parameters c') as [|p' rest'];
      simpl in Hhd; try discriminate; [reflexivity|].
    injection Hhd as <-. reflexivity.
  - intros c p rest Hps Hb Hc. simpl.
    destruct (isOfClass c "QString"); simpl; [|reflexivity].
    unfold ctorParamLoop. rewrite Hps.
    pose proof (isInterestingParam_true p) as Hp.
    destruct (isInterestingParam p) as [[r ca] ba]. simpl in Hp.
    destruct r; simpl; [|reflexivity].
    destruct Hp as [Hp _]. destruct (Hp eq_refl); contradiction.
Qed.

(** C10: an operator call that does not have exactly two arguments, and a
    member call that does not have exactly one, get an empty fix-it list
    and one "internal error" warning at the start of the call; nothing else
    happens, so no partial edit is returned. *)
Theorem C10_wrong_argument_count_is_internal_error :
  (forall op : Stmt,
      getNumArgs op <> 2%nat ->
      fixOperatorCall op =
        Some ([], [EmitWarning (getLocStart op) "internal error" []])) /\
  (forall memberExpr : Stmt,
      getNumArgs memberExpr <> 1%nat ->
      fixMethodCallCall memberExpr =
        Some ([], [EmitWarning (getLocStart memberExpr) "internal error" []])).
Proof.
  split.
  - intros op Hn. unfold fixOperatorCall.
    destruct (Nat.eqb_spec (getNumArgs op) 2) as [E|_]; [contradiction|reflexivity].
  - intros m Hn. unfold fixMethodCallCall.
    destruct (Nat.eqb_spec (getNumArgs m) 1) as [E|_]; [contradiction|reflexivity].
Qed.

(** C4: the three stages of the replace-constructor-with-factory fix.  The
    end of the name is first asked of the end-of-token utility with offset
    -1; if that location is invalid the start shifted by [size() - 2] of
    the replaced name is taken; if that is invalid too no edit is built and
    a manual-fixit warning is queued at the start of the constructor call. *)
Theorem C4_replace_constructor_three_stages (ctorExpr : Stmt) :
  let rangeStart := getLocStart ctorExpr in
  let tokenEnd := getLocForEndOfToken rangeStart (-1) in
  let shifted := getLocWithOffset rangeStart (Z.of_nat (String.length "QString") - 2) in
  (loc_isValid tokenEnd = true ->
     fixitReplaceWithFromLatin1 ctorExpr =
       Some ([CreateReplacement (mkRange rangeStart tokenEnd) "QString::fromLatin1"], [])) /\
  (loc_isValid tokenEnd = false -> loc_isValid shifted = true ->
     fixitReplaceWithFromLatin1 ctorExpr =
       Some ([CreateReplacement (mkRange rangeStart shifted) "QString::fromLatin1"], [])) /\
  (loc_isValid tokenEnd = false -> loc_isValid shifted = false ->
     result (fixitReplaceWithFromLatin1 ctorExpr) = Some [] /\
     events (fixitReplaceWithFromLatin1 ctorExpr) =
       Some [PrintLocation rangeStart; PrintLocation shifted;
             PrintLocation (getLocForEndOfToken rangeStart 0);
             QueueManualFixitWarning rangeStart FixItToFromLatin1]).
Proof.
  intros rangeStart tokenEnd shifted.
  unfold fixitReplaceWithFromLatin1, loc_isInvalid.
  change (getLocWithOffset (getLocStart ctorExpr) fallbackOffset) with shifted.
  fold rangeStart. fold tokenEnd.
  split; [|split].
  - intros ->. reflexivity.
  - intros -> ->. reflexivity.
  - intros -> ->. split; reflexivity.
Qed.

(** C3: [fixCtorCall] selects the strategy by the syntactic context.  A
    constructor call whose parent is a bind-temporary node and whose
    grandparent is a functional-cast node is fixed by replacing the
    constructor name; in every other context the wrapping call is inserted.
    The insert strategy builds no edit of its own: what it returns is empty
    or the two hints of the wrap-in-call helper, which are insertions, so
    the constructor name is not deleted. *)
Theorem C3_fix_strategy_follows_context (this : CheckBase) (ctorExpr : Stmt) :
  (boundAndCast (m_parentMap this) ctorExpr ->
     fixCtorCall this ctorExpr = fixitReplaceWithFromLatin1 ctorExpr) /\
  (~ boundAndCast (m_parentMap this) ctorExpr ->
     fixCtorCall this ctorExpr = fixitInsertFromLatin1 ctorExpr) /\
  (forall fixits,
     result (fixitInsertFromLatin1 ctorExpr) = Some fixits ->
     fixits = [] \/
     exists range, fixits = insertParentMethodCall "QString::fromLatin1" range []) /\
  (forall method range,
     Forall (fun h => isInsertion h = true)
            (SpecModel.insertParentMethodCall method range [])).
Proof.
  split; [|split; [|split]].
  - intros (p & g & Hp & Hg & Cp & Cg). unfold fixCtorCall, parent.
    rewrite Hp, Hg. unfold isa_CXXBindTemporaryExpr, isa_CXXFunctionalCastExpr.
    rewrite Cp, Cg. reflexivity.
  - intros Hn. unfold fixCtorCall, parent.
    destruct (m_parentMap this !! stmtId ctorExpr) as [p|] eqn:Hp; [|reflexivity].
    destruct (m_parentMap this !! stmtId p) as [g|] eqn:Hg; [|reflexivity].
    unfold isa_CXXBindTemporaryExpr, isa_CXXFunctionalCastExpr.
    destruct (getStmtClass p) eqn:Cp; try reflexivity.
    destruct (getStmtClass g) eqn:Cg; try reflexivity.
    exfalso. apply Hn. exists p, g. auto.
  - intros fixits. unfold fixitInsertFromLatin1.
    destruct (getArg ctorExpr 0) as [arg|]; simpl; [|discriminate].
    case_range; simpl; intros [= <-]; eauto.
  - intros method range. unfold SpecModel.insertParentMethodCall. simpl.
    repeat constructor.
Qed.

End Qt4_QStringFromArray_facts.

Section QDateTimeUtc_facts.
Context {frontend : ClangFrontend} {utils : ClazyUtils}.
Import QDateTimeUtc.

Lemma dyn_cast_CXXMethodDecl_Some (f g : FunctionDecl) :
  dyn_cast_CXXMethodDecl f = Some g <-> g = f /\ getDeclKind f <> FunctionKind.
Proof.
  unfold dyn_cast_CXXMethodDecl.
  destruct (getDeclKind f); split; try discriminate;
    try (intros [= <-]; split; [reflexivity|discriminate]);
    try (intros [-> _]; reflexivity).
  intros [_ H]. contradiction.
Qed.

Lemma dyn_cast_CXXMethodDecl_None (f : FunctionDecl) :
  dyn_cast_CXXMethodDecl f = None <-> getDeclKind f = FunctionKind.
Proof.
  unfold dyn_cast_CXXMethodDecl. destruct (getDeclKind f); split; congruence.
Qed.

Lemma last_is_back {A} (l : list A) : l !! (length l - 1)%nat = last l.
Proof. rewrite last_lookup. f_equal. lia. Qed.

Lemma chainMatches_isTimeT (stmt : Stmt) (b : bool) (m : FunctionDecl) :
  chainMatches stmt b -> getMethodDecl stmt = Some m ->
  String.eqb (getQualifiedNameAsString m) "QDateTime::toTime_t" = b.
Proof.
  intros (_ & (m' & Hm' & Hn) & _) Hm. rewrite Hm in Hm'. injection Hm' as <-.
  rewrite Hn. destruct b; reflexivity.
Qed.

(** The flag of a matching statement is determined by the statement. *)
Lemma chainMatches_functional (stmt : Stmt) (b b' : bool) :
  chainMatches stmt b -> chainMatches stmt b' -> b = b'.
Proof.
  intros (_ & (m & Em & En) & _) (_ & (m' & Em' & En') & _).
  rewrite Em in Em'. injection Em' as <-. rewrite En in En'.
  destruct b, b'; try reflexivity; discriminate.
Qed.

(** Either the pattern holds and the visit reports, or it does not hold
    and the visit returns at once. *)
Lemma VisitStmt_cases (this : CheckBase) (stmt : Stmt) :
  (exists b, chainMatches stmt b /\ VisitStmt this stmt = report this stmt b) \/
  ((forall b, ~ chainMatches stmt b) /\ VisitStmt this stmt = check_ret tt).
Proof.
  unfold VisitStmt, dyn_cast_CXXMemberCallExpr.
  destruct (getStmtClass stmt) eqn:Ecls;
    try (right; split; [intros b (H & _); congruence | reflexivity]).
  destruct (getMethodDecl stmt) as [m|] eqn:Em;
    [| right; split; [intros b (_ & (m' & H & _) & _); congruence | reflexivity]].
  destruct (String.eqb (getQualifiedNameAsString m) "QDateTime::toTime_t") eqn:Et;
    destruct (String.eqb (getQualifiedNameAsString m) "QDateTime::toUTC") eqn:Eu;
    simpl.
  4: { right. split; [|reflexivity]. intros b (_ & (m' & Hm' & Hn) & _).
       rewrite Em in Hm'. injection Hm' as <-.
       apply string_eqb_false in Et, Eu. destruct b; contradiction. }
  all: destruct (Nat.ltb_spec (length (callListForChain stmt)) 2) as [Hlen|Hlen];
    [ right; split; [intros b (_ & _ & H & _); lia | reflexivity] | ].
  all: rewrite last_is_back.
  all: destruct (last (callListForChain stmt)) as [firstCall|] eqn:El;
    [| exfalso; apply last_None in El; rewrite El in Hlen; simpl in Hlen; lia ].
  all: simpl.
  all: destruct (getDirectCallee firstCall) as [firstFunc|] eqn:Ef;
    [| right; split;
       [ intros b (_ & _ & _ & (fc & fm & Hl & H & _));
         rewrite El in Hl; injection Hl as <-; congruence
       | reflexivity ] ].
  all: destruct (dyn_cast_CXXMethodDecl firstFunc) as [firstMethod|] eqn:Ed;
    [ apply dyn_cast_CXXMethodDecl_Some in Ed as [-> Hk]
    | apply dyn_cast_CXXMethodDecl_None in Ed;
      right; split;
       [ intros b (_ & _ & _ & (fc & fm & Hl & H & Hk & _));
         rewrite El in Hl; injection Hl as <-; congruence
       | reflexivity ] ].
  all: destruct (String.eqb (getQualifiedNameAsString firstFunc)
                            "QDateTime::currentDateTime") eqn:En; simpl;
    [ apply string_eqb_true in En
    | apply string_eqb_false in En;
      right; split;
       [ intros b (_ & _ & _ & (fc & fm & Hl & H & _ & Hn));
         rewrite El in Hl; injection Hl as <-; congruence
       | reflexivity ] ].
  all: left.
  all: apply string_eqb_true in Et || apply string_eqb_true in Eu.
  1, 2: exists true. 3: exists false.
  all: (split;
    [ split; [assumption|]; split; [exists m; split; [assumption|assumption]|];
      split; [lia|]; exists firstCall, firstFunc; auto
    | unfold report;
      destruct (isFixitEnabled this FixitAll); [|reflexivity];
      destruct (transformTwoCallsIntoOneV2 stmt _ []) as [[] fx]; reflexivity ]).
Qed.

Lemma report_events (this : CheckBase) (stmt : Stmt) (b : bool) :
  report this stmt b =
    Some (tt, manualNotice this stmt b ++
              [EmitWarning (getLocStart stmt)
                 (String.append "Use QDateTime"
                    (String.append (replacementFor b) " instead"))
                 (attachedFixits this stmt b)]).
Proof.
  unfold report, manualNotice, attachedFixits.
  destruct (isFixitEnabled this FixitAll); [|reflexivity].
  destruct (transformTwoCallsIntoOneV2 stmt (replacementFor b) []) as [[] fx]; reflexivity.
Qed.

(** C8: [QDateTimeUtc::VisitStmt] emits a warning exactly for a member
    call resolved to [QDateTime::toTime_t] or [QDateTime::toUTC] whose call
    chain has at least two elements and ends in a call resolved to the
    method [QDateTime::currentDateTime]; for every other statement the visit
    returns with nothing emitted and nothing queued.  The visit is always
    defined. *)
Theorem C8_warning_iff_chain_matches (this : CheckBase) (stmt : Stmt) :
  exists evs,
    events (VisitStmt this stmt) = Some evs /\
    ((exists loc msg fixits, In (EmitWarning loc msg fixits) evs) <->
     (exists isTimeT, chainMatches stmt isTimeT)) /\
    ((forall isTimeT, ~ chainMatches stmt isTimeT) -> evs = []).
Proof.
  destruct (VisitStmt_cases this stmt) as [(b & Hm & ->) | (Hn & ->)].
  - rewrite report_events. eexists. split; [reflexivity|]. split.
    + split; [intros _; exists b; exact Hm|]. intros _.
      do 3 eexists. apply in_or_app. right. left. reflexivity.
    + intros Hno. exfalso. exact (Hno b Hm).
  - exists []. split; [reflexivity|]. split; [|reflexivity].
    split.
    + intros (loc & msg & fx & []).
    + intros (b & Hb). exfalso. exact (Hn b Hb).
Qed.

End QDateTimeUtc_facts.

Section Fix_failures.
Context {frontend : ClangFrontend} {utils : ClazyUtils}.
Import Qt4_QStringFromArray.

Lemma isInterestingMethodCall_silent (method : option FunctionDecl) (name : string) r evs :
  isInterestingMethodCall method name = Some (r, evs) -> evs = [].
Proof.
  unfold isInterestingMethodCall. destruct method as [m|]; [|intros [= _ <-]; reflexivity].
  destruct (negb _ || negb _); [intros [= _ <-]; reflexivity|].
  destruct (negb (isInterestingMethod _)); [intros [= _ <-]; reflexivity|].
  destruct (getParamDecl m 0) as [p|]; simpl; [|discriminate].
  destruct (isInterestingParam p) as [[[] ca] ba]; simpl; intros [= _ <-]; reflexivity.
Qed.

Lemma isInterestingOperatorCall_silent (op : Stmt) (name : string) r evs :
  isInterestingOperatorCall op name = Some (r, evs) -> evs = [].
Proof.
  unfold isInterestingOperatorCall.
  destruct (getDirectCallee op); [apply isInterestingMethodCall_silent|].
  intros [= _ <-]; reflexivity.
Qed.

(** Once the anti-pattern is matched, the visit runs the synthesis routine
    and then emits the diagnostic with whatever edits it returned. *)
Lemma Qt4_VisitStmt_matched (this : CheckBase) (stm : Stmt) ca name :
  qt4Matches stm ca name ->
  VisitStmt this stm =
    (do fixits <- qt4Fix this stm;
     emitWarning (getLocStart stm) (qt4Message stm ca name) fixits).
Proof.
  unfold qt4Matches, qt4Fix, qt4Message, VisitStmt.
  unfold dyn_cast_CXXConstructExpr, dyn_cast_CXXOperatorCallExpr, dyn_cast_CXXMemberCallExpr.
  destruct (getStmtClass stm); try contradiction; simpl.
  - intros (ba & Hr). unfold result in Hr.
    destruct (isInterestingMethodCall (getMethodDecl stm) "") as [[r evs]|] eqn:E;
      [|discriminate].
    pose proof (isInterestingMethodCall_silent _ _ _ _ E) as ->.
    simpl in Hr. injection Hr as ->. simpl.
    destruct (fixMethodCallCall stm) as [[fx evs]|]; reflexivity.
  - intros (ba & Hr). unfold result in Hr.
    destruct (isInterestingOperatorCall stm "") as [[r evs]|] eqn:E; [|discriminate].
    pose proof (isInterestingOperatorCall_silent _ _ _ _ E) as ->.
    simpl in Hr. injection Hr as ->. simpl.
    destruct (fixOperatorCall stm) as [[fx evs]|]; reflexivity.
  - intros (-> & ba & ->). simpl.
    destruct (fixCtorCall this stm) as [[fx evs]|]; simpl; [|reflexivity].
    destruct ca; reflexivity.
Qed.

(** C1: a synthesis routine that computes an invalid source range returns
    an empty fix-it list.  For every input to [fixOperatorCall],
    [fixMethodCallCall] and [fixitInsertFromLatin1] for which the computed
    range [{start, end}] is invalid, the returned list is empty.  The
    replace routine starts its range at the start of a constructor call
    that is written in the source, a valid location: when the end it
    computes makes the range invalid the returned list is empty, and every
    edit it returns has a valid range. *)
Theorem C1_invalid_range_gives_no_edit :
  (forall op e : Stmt,
      getNumArgs op = 2%nat -> getArg op 1 = Some e ->
      range_isInvalid
        (mkRange (getLocStart e)
                 (getLocForEndOfToken (biggestSourceLocationInStmt e) 0)) = true ->
      result (fixOperatorCall op) = Some []) /\
  (forall memberExpr e : Stmt,
      getNumArgs memberExpr = 1%nat -> getArg memberExpr 0 = Some e ->
      range_isInvalid
        (mkRange (getLocStart e)
                 (getLocForEndOfToken (biggestSourceLocationInStmt e) 0)) = true ->
      result (fixMethodCallCall memberExpr) = Some []) /\
  (forall ctorExpr arg : Stmt,
      getArg ctorExpr 0 = Some arg ->
      range_isInvalid
        (mkRange (getLocStart arg)
                 (getLocForEndOfToken (biggestSourceLocationInStmt ctorExpr) 0)) = true ->
      result (fixitInsertFromLatin1 ctorExpr) = Some []) /\
  (forall ctorExpr : Stmt,
      loc_isValid (getLocStart ctorExpr) = true ->
      let rangeStart := getLocStart ctorExpr in
      let tokenEnd := getLocForEndOfToken rangeStart (-1) in
      let rangeEnd :=
        if loc_isValid tokenEnd then tokenEnd else getLocWithOffset rangeStart 5 in
      (range_isInvalid (mkRange rangeStart rangeEnd) = true ->
         result (fixitReplaceWithFromLatin1 ctorExpr) = Some []) /\
      (forall fixits range text,
         result (fixitReplaceWithFromLatin1 ctorExpr) = Some fixits ->
         In (CreateReplacement range text) fixits ->
         range_isValid range = true)).
Proof.
  split; [|split; [|split]].
  - intros op e Hn He Hr. unfold fixOperatorCall. rewrite Hn, He. simpl.
    rewrite Hr. reflexivity.
  - intros m e Hn He Hr. unfold fixMethodCallCall. rewrite Hn, He. simpl.
    rewrite Hr. reflexivity.
  - intros c arg He Hr. unfold fixitInsertFromLatin1. rewrite He. simpl.
    rewrite Hr. reflexivity.
  - intros c Hstart. simpl.
    unfold fixitReplaceWithFromLatin1, loc_isInvalid, range_isInvalid, range_isValid.
    change (getLocWithOffset (getLocStart c) fallbackOffset)
      with (getLocWithOffset (getLocStart c) 5).
    simpl. rewrite Hstart. simpl.
    destruct (loc_isValid (getLocForEndOfToken (getLocStart c) (-1))) eqn:E1; simpl.
    + rewrite E1. split; [discriminate|].
      intros fixits range text [= <-] [[= <- _]|[]]. simpl. rewrite Hstart, E1. reflexivity.
    + destruct (loc_isValid (getLocWithOffset (getLocStart c) 5)) eqn:E2; simpl.
      * split; [discriminate|].
        intros fixits range text [= <-] [[= <- _]|[]]. simpl. rewrite Hstart, E2.
        reflexivity.
      * split; [reflexivity|]. intros fixits range text [= <-] [].
Qed.

End Fix_failures.

Section Degrading_to_a_manual_warning.
Context {frontend : ClangFrontend} {utils : ClazyUtils}.

(** C5: a failure of the fix-it synthesizer never suppresses the warning
    of the check, which is then emitted with the edits the synthesizer left
    (none, for the helper modelled from the spec and for the routines of
    qt4-qstring-from-array).  A manual-fixit notice at the matched location
    is recorded by qdatetime-utc, when its fixit is enabled, and by the
    replace-constructor routine of qt4-qstring-from-array.  The three
    wrapping routines of qt4-qstring-from-array record none: when the
    argument count is wrong or the range is invalid they return no edit
    and emit exactly one warning of their own at the start of the call,
    with the text "internal error" ([fixOperatorCall],
    [fixMethodCallCall]) or "Internal error" ([fixitInsertFromLatin1]);
    they emit nothing else in any case. *)
Theorem C5_failure_keeps_the_warning :
  (forall (this : CheckBase) (stmt : Stmt) (isTimeT : bool),
      chainMatches stmt isTimeT ->
      isFixitEnabled this QDateTimeUtc.FixitAll = true ->
      fst (transformTwoCallsIntoOneV2 stmt (QDateTimeUtc.replacementFor isTimeT) []) = false ->
      events (QDateTimeUtc.VisitStmt this stmt) =
        Some [ QueueManualFixitWarning (getLocStart stmt) QDateTimeUtc.FixitAll;
               EmitWarning (getLocStart stmt)
                 (String.append "Use QDateTime"
                    (String.append (QDateTimeUtc.replacementFor isTimeT) " instead"))
                 (snd (transformTwoCallsIntoOneV2 stmt
                         (QDateTimeUtc.replacementFor isTimeT) [])) ]) /\
  (forall (bar : Stmt) (baz : string),
      fst (SpecModel.transformTwoCallsIntoOneV2 bar baz []) = false ->
      snd (SpecModel.transformTwoCallsIntoOneV2 bar baz []) = []) /\
  (forall (this : CheckBase) (stm : Stmt) is_char_array methodName notices,
      qt4Matches stm is_char_array methodName ->
      qt4Fix this stm = Some ([], notices) ->
      events (Qt4_QStringFromArray.VisitStmt this stm) =
        Some (notices ++
              [EmitWarning (getLocStart stm) (qt4Message stm is_char_array methodName) []])) /\
  (forall ctorExpr : Stmt,
      result (Qt4_QStringFromArray.fixitReplaceWithFromLatin1 ctorExpr) = Some [] ->
      exists printed,
        Forall (fun e => isEmitWarning e = false /\ isQueueManual e = false) printed /\
        events (Qt4_QStringFromArray.fixitReplaceWithFromLatin1 ctorExpr) =
          Some (printed ++
                [QueueManualFixitWarning (getLocStart ctorExpr)
                   Qt4_QStringFromArray.FixItToFromLatin1])) /\
  (forall x : Stmt,
      getNumArgs x <> 2%nat \/
      (exists e, getArg x 1 = Some e /\
                 range_isInvalid
                   (mkRange (getLocStart e)
                            (getLocForEndOfToken (biggestSourceLocationInStmt e) 0)) = true) ->
      Qt4_QStringFromArray.fixOperatorCall x =
        Some ([], [EmitWarning (getLocStart x) "internal error" []])) /\
  (forall x : Stmt,
      getNumArgs x <> 1%nat \/
      (exists e, getArg x 0 = Some e /\
                 range_isInvalid
                   (mkRange (getLocStart e)
                            (getLocForEndOfToken (biggestSourceLocationInStmt e) 0)) = true) ->
      Qt4_QStringFromArray.fixMethodCallCall x =
        Some ([], [EmitWarning (getLocStart x) "internal error" []])) /\
  (forall x arg : Stmt,
      getArg x 0 = Some arg ->
      range_isInvalid
        (mkRange (getLocStart arg)
                 (getLocForEndOfToken (biggestSourceLocationInStmt x) 0)) = true ->
      Qt4_QStringFromArray.fixitInsertFromLatin1 x =
        Some ([], [EmitWarning (getLocStart x) "Internal error" []])) /\
  (forall (x : Stmt) (notices : list Event),
      events (Qt4_QStringFromArray.fixOperatorCall x) = Some notices \/
      events (Qt4_QStringFromArray.fixMethodCallCall x) = Some notices ->
      notices = [] \/ notices = [EmitWarning (getLocStart x) "internal error" []]) /\
  (forall (x : Stmt) (notices : list Event),
      events (Qt4_QStringFromArray.fixitInsertFromLatin1 x) = Some notices ->
      notices = [] \/ notices = [EmitWarning (getLocStart x) "Internal error" []]).
Proof.
  split; [|split; [|split; [|split; [|split; [|split; [|split; [|split]]]]]]].
  - intros this stmt b Hm Hen Hfail.
    destruct (VisitStmt_cases this stmt) as [(b' & Hm' & ->) | (Hn & _)].
    + rewrite (chainMatches_functional stmt b' b Hm' Hm).
      rewrite report_events. unfold manualNotice, attachedFixits.
      rewrite Hen, Hfail. reflexivity.
    + exfalso. exact (Hn b Hm).
  - intros bar baz. unfold SpecModel.transformTwoCallsIntoOneV2.
    destruct (range_isInvalid _); simpl; [reflexivity|discriminate].
  - intros this stm ca name notices Hm Hfix.
    rewrite (Qt4_VisitStmt_matched this stm ca name Hm). rewrite Hfix. reflexivity.
  - intros c. unfold Qt4_QStringFromArray.fixitReplaceWithFromLatin1.
    destruct (loc_isInvalid (getLocForEndOfToken (getLocStart c) (-1))); [|discriminate].
    destruct (loc_isInvalid (getLocWithOffset (getLocStart c) _)); [|discriminate].
    intros _. eexists [_; _; _]. split; [|reflexivity].
    repeat constructor.
  - intros x H. unfold Qt4_QStringFromArray.fixOperatorCall.
    destruct (Nat.eqb_spec (getNumArgs x) 2) as [Hn|Hn]; [|reflexivity].
    destruct H as [H | (e & He & Hr)]; [contradiction|].
    rewrite He. simpl. rewrite Hr. reflexivity.
  - intros x H. unfold Qt4_QStringFromArray.fixMethodCallCall.
    destruct (Nat.eqb_spec (getNumArgs x) 1) as [Hn|Hn]; [|reflexivity].
    destruct H as [H | (e & He & Hr)]; [contradiction|].
    rewrite He. simpl. rewrite Hr. reflexivity.
  - intros x arg He Hr. unfold Qt4_QStringFromArray.fixitInsertFromLatin1.
    rewrite He. simpl. rewrite Hr. reflexivity.
  - intros x notices.
    unfold Qt4_QStringFromArray.fixOperatorCall, Qt4_QStringFromArray.fixMethodCallCall.
    intros [H | H]; revert H.
    + destruct (getNumArgs x =? 2)%nat; [|intros [= <-]; auto].
      destruct (getArg x 1); simpl; [|discriminate].
      case_range; simpl; intros [= <-]; auto.
    + destruct (getNumArgs x =? 1)%nat; [|intros [= <-]; auto].
      destruct (getArg x 0); simpl; [|discriminate].
      case_range; simpl; intros [= <-]; auto.
  - intros x notices. unfold Qt4_QStringFromArray.fixitInsertFromLatin1.
    destruct (getArg x 0); simpl; [|discriminate].
    case_range; simpl; intros [= <-]; auto.
Qed.

End Degrading_to_a_manual_warning.

(** C2: on a statement that matches the chain
    [currentDateTime().toTime_t()] (resp. [currentDateTime().toUTC()]) and
    with the fixit enabled, qdatetime-utc asks collapse-chain variant 2,
    [transformTwoCallsIntoOneV2], for the edits, with the replacement text
    [::currentDateTimeUtc().toTime_t()] (resp. [::currentDateTimeUtc()],
    nothing appended), and attaches what it returns to the warning.  With
    variant 2 as the specification describes it and a valid chain span,
    that is one replacement spanning the whole chain with that text. *)
Theorem C2_collapse_chain_is_variant_2 :
  (forall (utils : ClazyUtils) (this : CheckBase) (stmt : Stmt) (isTimeT : bool),
      chainMatches stmt isTimeT ->
      isFixitEnabled this QDateTimeUtc.FixitAll = true ->
      let text := if isTimeT then "::currentDateTimeUtc().toTime_t()"
                  else "::currentDateTimeUtc()" in
      let edits := transformTwoCallsIntoOneV2 stmt text [] in
      events (QDateTimeUtc.VisitStmt this stmt) =
        Some ((if fst edits then []
               else [QueueManualFixitWarning (getLocStart stmt) QDateTimeUtc.FixitAll]) ++
              [EmitWarning (getLocStart stmt)
                 (String.append "Use QDateTime" (String.append text " instead"))
                 (snd edits)])) /\
  (forall (this : CheckBase) (stmt : Stmt) (isTimeT : bool),
      chainMatches (utils := SpecModel.utils) stmt isTimeT ->
      isFixitEnabled this QDateTimeUtc.FixitAll = true ->
      range_isValid (mkRange (getLocStart stmt) (getLocEnd stmt)) = true ->
      let text := if isTimeT then "::currentDateTimeUtc().toTime_t()"
                  else "::currentDateTimeUtc()" in
      events (QDateTimeUtc.VisitStmt (utils := SpecModel.utils) this stmt) =
        Some [EmitWarning (getLocStart stmt)
                (String.append "Use QDateTime" (String.append text " instead"))
                [CreateReplacement (mkRange (getLocStart stmt) (getLocEnd stmt)) text]]).
Proof.
  assert (Hgen : forall (utils : ClazyUtils) (this : CheckBase) (stmt : Stmt) (b : bool),
      chainMatches stmt b ->
      isFixitEnabled this QDateTimeUtc.FixitAll = true ->
      events (QDateTimeUtc.VisitStmt this stmt) =
        Some ((if fst (transformTwoCallsIntoOneV2 stmt (QDateTimeUtc.replacementFor b) [])
               then []
               else [QueueManualFixitWarning (getLocStart stmt) QDateTimeUtc.FixitAll]) ++
              [EmitWarning (getLocStart stmt)
                 (String.append "Use QDateTime"
                    (String.append (QDateTimeUtc.replacementFor b) " instead"))
                 (snd (transformTwoCallsIntoOneV2 stmt (QDateTimeUtc.replacementFor b) []))])).
  { intros utils this stmt b Hm Hen.
    destruct (VisitStmt_cases this stmt) as [(b' & Hm' & ->) | (Hn & _)].
    - rewrite (chainMatches_functional stmt b' b Hm' Hm).
      rewrite report_events. unfold manualNotice, attachedFixits. rewrite Hen.
      simpl. destruct (fst _); reflexivity.
    - exfalso. exact (Hn b Hm). }
  split.
  - intros utils this stmt b Hm Hen. simpl.
    rewrite (Hgen utils this stmt b Hm Hen). destruct b; reflexivity.
  - intros this stmt b Hm Hen Hvalid. simpl.
    rewrite (Hgen SpecModel.utils this stmt b Hm Hen).
    simpl. unfold SpecModel.transformTwoCallsIntoOneV2, range_isInvalid.
    rewrite Hvalid. simpl. destruct b; reflexivity.
Qed.

Section Call_chains.

Lemma callListForChain_unfold (call : Stmt) :
  SpecModel.callListForChain call =
    call :: match getImplicitObjectArgument call with
            | Some r => if isa_CallExpr r then SpecModel.callListForChain r else []
            | None => []
            end.
Proof. destruct call; reflexivity. Qed.

(** Induction along the receiver of a node. *)
Lemma Stmt_receiver_ind (P : Stmt -> Prop)
    (step : forall s, (forall r, getImplicitObjectArgument s = Some r -> P r) -> P s) :
  forall s, P s.
Proof.
  fix IH 1. intros s. apply step. destruct s as [id cls b e d recv args]. simpl.
  destruct recv as [r0|]; intros r E; [|discriminate].
  pose proof (IH r0) as Hr0. injection E as <-. exact Hr0.
Qed.

Lemma callListForChain_head (call : Stmt) :
  head (SpecModel.callListForChain call) = Some call.
Proof. rewrite callListForChain_unfold. reflexivity. Qed.

Lemma callListForChain_receivers (call : Stmt) :
  forall (i : nat) (a b : Stmt),
    SpecModel.callListForChain call !! i = Some a ->
    SpecModel.callListForChain call !! S i = Some b ->
    getImplicitObjectArgument a = Some b.
Proof.
  induction call as [call IH] using Stmt_receiver_ind.
  intros i a b. rewrite callListForChain_unfold.
  destruct (getImplicitObjectArgument call) as [r|] eqn:Er.
  - destruct (isa_CallExpr r) eqn:Ec.
    + destruct i as [|i]; simpl.
      * intros [= <-] Hb. pose proof (callListForChain_head r) as Hh.
        rewrite head_lookup in Hh. rewrite Hh in Hb. injection Hb as <-. exact Er.
      * apply (IH r eq_refl).
    + destruct i as [|[|i]]; simpl; intros; discriminate.
  - destruct i as [|[|i]]; simpl; intros; discriminate.
Qed.

End Call_chains.

Section Outermost_call.

Lemma outermostCall_unfold (call : Stmt) :
  outermostCall call =
    match getImplicitObjectArgument call with
    | Some r => if isa_CallExpr r then outermostCall r else call
    | None => call
    end.
Proof. destruct call; reflexivity. Qed.

Lemma outermostCall_starts_the_chain (call : Stmt) :
  forall r, getImplicitObjectArgument (outermostCall call) = Some r ->
            isa_CallExpr r = false.
Proof.
  induction call as [call IH] using Stmt_receiver_ind.
  rewrite outermostCall_unfold.
  destruct (getImplicitObjectArgument call) as [r|] eqn:Er.
  - destruct (isa_CallExpr r) eqn:Ec.
    + apply (IH r eq_refl).
    + intros r' Er'. rewrite Er in Er'. injection Er' as <-. exact Ec.
  - intros r' Er'. congruence.
Qed.

Lemma callListForChain_last_outermost (call : Stmt) :
  last (SpecModel.callListForChain call) = Some (outermostCall call).
Proof.
  induction call as [call IH] using Stmt_receiver_ind.
  rewrite callListForChain_unfold, outermostCall_unfold.
  destruct (getImplicitObjectArgument call) as [r|] eqn:Er; [|reflexivity].
  destruct (isa_CallExpr r) eqn:Ec; [|reflexivity].
  rewrite (callListForChain_unfold r) at 1. cbn [last].
  rewrite <- (callListForChain_unfold r). apply (IH r eq_refl).
Qed.

End Outermost_call.

(** C6: the call chain derived from a call by walking its receiver
    backward starts at that call, every next element being the receiver of
    the element before it, and is ordered with the outermost call of the
    chain, the call the chain starts with, last: for every chain, and so
    for every chain of length at least two, the element at the last index
    is the outermost call.  It is the element qdatetimeutc.cpp reads as
    [firstCall]: when the pattern of the check holds, the outermost call
    resolves to [QDateTime::currentDateTime]. *)
Theorem C6_chain_ends_in_its_outermost_call :
  (forall call : Stmt, SpecModel.callListForChain call !! 0%nat = Some call) /\
  (forall (call : Stmt) (i : nat) (a b : Stmt),
      SpecModel.callListForChain call !! i = Some a ->
      SpecModel.callListForChain call !! S i = Some b ->
      getImplicitObjectArgument a = Some b) /\
  (forall call r : Stmt,
      getImplicitObjectArgument (outermostCall call) = Some r -> isa_CallExpr r = false) /\
  (forall call : Stmt,
      last (SpecModel.callListForChain call) = Some (outermostCall call)) /\
  (forall call : Stmt,
      (2 <= length (SpecModel.callListForChain call))%nat ->
      SpecModel.callListForChain call
        !! (length (SpecModel.callListForChain call) - 1)%nat
      = Some (outermostCall call)) /\
  (forall (stmt : Stmt) (isTimeT : bool),
      chainMatches (utils := SpecModel.utils) stmt isTimeT ->
      exists firstMethod,
        getDirectCallee (outermostCall stmt) = Some firstMethod /\
        getQualifiedNameAsString firstMethod = "QDateTime::currentDateTime").
Proof.
  split; [|split; [|split; [|split; [|split]]]].
  - intros call. rewrite <- head_lookup. apply callListForChain_head.
  - apply callListForChain_receivers.
  - apply outermostCall_starts_the_chain.
  - apply callListForChain_last_outermost.
  - intros call _. rewrite last_is_back. apply callListForChain_last_outermost.
  - intros stmt b (_ & _ & _ & (fc & fm & El & Ef & _ & Hn)).
    simpl in El. rewrite callListForChain_last_outermost in El. injection El as <-.
    exists fm. auto.
Qed.

Section Dispatch_facts.
Import Dispatch.

Lemma visitNode_interested (checks : list CheckClass) (n : ASTNode) :
  Forall (fun inv =>
            interestedIn (invokedCheck inv) (nodeKind (visitedNode inv)) = true /\
            In (invokedCheck inv) checks)
         (visitNode checks n).
Proof.
  unfold visitNode. apply List.Forall_forall. intros inv Hin.
  apply List.in_map_iff in Hin as (c & <- & Hc).
  apply List.filter_In in Hc as [Hc Hi]. simpl. auto.
Qed.

(** Every invocation of the walk hands a check a node of a kind the check
    declared interest in. *)
Lemma dispatch_interested (checks : list CheckClass) :
  forall n : ASTNode,
    Forall (fun inv =>
              interestedIn (invokedCheck inv) (nodeKind (visitedNode inv)) = true /\
              In (invokedCheck inv) checks)
           (dispatch checks n).
Proof.
  fix IH 1. intros [k id cs]. simpl.
  apply Forall_app. split; [apply visitNode_interested|].
  induction cs as [|c cs' IHcs]; [constructor|].
  apply Forall_app. split; [apply IH | exact IHcs].
Qed.

(** C7: during a dispatch walk a check that overrides only [VisitStmt] is
    never handed a declaration node, and a check that overrides only
    [VisitDecl] is never handed a statement node. *)
Theorem C7_dispatch_respects_declared_interest
    (checks : list CheckClass) (root : ASTNode) (c : CheckClass) :
  (overridesVisitStmt c = true -> overridesVisitDecl c = false ->
   forall inv, In inv (dispatch checks root) -> invokedCheck inv = c ->
               nodeKind (visitedNode inv) <> DeclarationNode) /\
  (overridesVisitDecl c = true -> overridesVisitStmt c = false ->
   forall inv, In inv (dispatch checks root) -> invokedCheck inv = c ->
               nodeKind (visitedNode inv) <> StatementNode).
Proof.
  pose proof (dispatch_interested checks root) as Hall.
  rewrite List.Forall_forall in Hall.
  split; intros _ Hoff inv Hin <- Hk; destruct (Hall inv Hin) as [Hi _];
    rewrite Hk in Hi; simpl in Hi; congruence.
Qed.

End Dispatch_facts.

(* ===================================================================== *)
(** ** The statements at concrete inputs                                 *)
(* ===================================================================== *)

Section Concrete.
Import Examples.
Existing Instance Examples.frontend.
Existing Instance SpecModel.utils.

Lemma C1_witness :
  result (Qt4_QStringFromArray.fixOperatorCall operatorCallOnMacro) = Some [] /\
  result (Qt4_QStringFromArray.fixMethodCallCall memberCallOnMacro) = Some [] /\
  result (Qt4_QStringFromArray.fixitInsertFromLatin1 ctorCallOnMacro) = Some [] /\
  result (Qt4_QStringFromArray.fixitReplaceWithFromLatin1 (ctorCall (mkLoc (2 ^ 32 - 5))))
    = Some [].
Proof.
  destruct (C1_invalid_range_gives_no_edit (frontend := frontend) (utils := SpecModel.utils))
    as (Hop & Hmember & Hinsert & Hreplace).
  split; [|split; [|split]].
  - apply (Hop operatorCallOnMacro (token 22 (macroLoc 40))); reflexivity.
  - apply (Hmember memberCallOnMacro (token 29 (macroLoc 50))); reflexivity.
  - apply (Hinsert ctorCallOnMacro (token 11 (macroLoc 30))); reflexivity.
  - exact (proj1 (Hreplace (ctorCall (mkLoc (2 ^ 32 - 5))) eq_refl) eq_refl).
Defined.

(** C2, counterexample: on [QDateTime::currentDateTime().toTime_t()], with
    the fixit enabled, the one edit attached to the warning carries the
    text [::currentDateTimeUtc().toTime_t()] that the check hands to
    [transformTwoCallsIntoOneV2]; it is not a replacement by
    [currentDateTimeUtc().toTime_t()]. *)
Lemma C2_counterexample_replacement_text :
  events (QDateTimeUtc.VisitStmt (allFixitsOn ∅) toTime_tChain) =
    Some [EmitWarning (mkLoc 100) "Use QDateTime::currentDateTimeUtc().toTime_t() instead"
            [CreateReplacement (mkRange (mkLoc 100) (mkLoc 137))
                               "::currentDateTimeUtc().toTime_t()"]] /\
  ~ (exists loc msg range,
        events (QDateTimeUtc.VisitStmt (allFixitsOn ∅) toTime_tChain) =
          Some [EmitWarning loc msg
                  [CreateReplacement range "currentDateTimeUtc().toTime_t()"]]).
Proof.
  split; [reflexivity|].
  intros (loc & msg & range & H). vm_compute in H. discriminate.
Qed.

Lemma toTime_tChain_matches : chainMatches toTime_tChain true.
Proof.
  split; [reflexivity|]. split; [exists toTime_tDecl; split; reflexivity|].
  split; [simpl; lia|].
  exists currentDateTimeCall, currentDateTimeDecl.
  split; [reflexivity|]. split; [reflexivity|]. split; [discriminate|reflexivity].
Defined.

Lemma toUTCChain_matches : chainMatches toUTCChain false.
Proof.
  split; [reflexivity|]. split; [exists toUTCDecl; split; reflexivity|].
  split; [simpl; lia|].
  exists currentDateTimeCall, currentDateTimeDecl.
  split; [reflexivity|]. split; [reflexivity|]. split; [discriminate|reflexivity].
Defined.

Lemma toTime_tChainNoEnd_matches : chainMatches toTime_tChainNoEnd true.
Proof.
  split; [reflexivity|]. split; [exists toTime_tDecl; split; reflexivity|].
  split; [simpl; lia|].
  exists currentDateTimeCall, currentDateTimeDecl.
  split; [reflexivity|]. split; [reflexivity|]. split; [discriminate|reflexivity].
Defined.

Lemma C2_witness :
  events (QDateTimeUtc.VisitStmt (allFixitsOn ∅) toTime_tChain) =
    Some [EmitWarning (mkLoc 100) "Use QDateTime::currentDateTimeUtc().toTime_t() instead"
            [CreateReplacement (mkRange (mkLoc 100) (mkLoc 137))
                               "::currentDateTimeUtc().toTime_t()"]] /\
  events (QDateTimeUtc.VisitStmt (allFixitsOn ∅) toUTCChain) =
    Some [EmitWarning (mkLoc 100) "Use QDateTime::currentDateTimeUtc() instead"
            [CreateReplacement (mkRange (mkLoc 100) (mkLoc 134))
                               "::currentDateTimeUtc()"]].
Proof.
  destruct C2_collapse_chain_is_variant_2 as [Hany Hspec].
  split.
  - exact (Hany SpecModel.utils (allFixitsOn ∅) toTime_tChain true
                toTime_tChain_matches eq_refl).
  - exact (Hspec (allFixitsOn ∅) toUTCChain false toUTCChain_matches eq_refl eq_refl).
Defined.

Lemma temporaryContext_boundAndCast :
  boundAndCast temporaryContext (ctorCall (mkLoc 200)).
Proof.
  exists bindTemporary, functionalCast. repeat split; reflexivity.
Defined.

Lemma initializerContext_not_boundAndCast :
  ~ boundAndCast initializerContext (ctorCall (mkLoc 200)).
Proof.
  intros (p & g & Hp & Hg & _).
  vm_compute in Hp. injection Hp as <-. vm_compute in Hg. discriminate.
Defined.

Lemma C3_witness :
  result (Qt4_QStringFromArray.fixCtorCall (allFixitsOn temporaryContext)
                                          (ctorCall (mkLoc 200)))
    = Some [CreateReplacement (mkRange (mkLoc 200) (mkLoc 200)) "QString::fromLatin1"] /\
  result (Qt4_QStringFromArray.fixCtorCall (allFixitsOn initializerContext)
                                          (ctorCall (mkLoc 200)))
    = Some [CreateInsertion (mkLoc 208) "QString::fromLatin1(";
            CreateInsertion (mkLoc 214) ")"].
Proof.
  split.
  - rewrite (proj1 (C3_fix_strategy_follows_context (allFixitsOn temporaryContext)
                      (ctorCall (mkLoc 200))) temporaryContext_boundAndCast).
    reflexivity.
  - rewrite (proj1 (proj2 (C3_fix_strategy_follows_context (allFixitsOn initializerContext)
                             (ctorCall (mkLoc 200))))
               initializerContext_not_boundAndCast).
    reflexivity.
Defined.

Lemma C4_witness :
  Qt4_QStringFromArray.fixitReplaceWithFromLatin1 (ctorCall (mkLoc 200)) =
    Some ([CreateReplacement (mkRange (mkLoc 200) (mkLoc 200)) "QString::fromLatin1"], []) /\
  Qt4_QStringFromArray.fixitReplaceWithFromLatin1 (ctorCall (macroLoc 60)) =
    Some ([CreateReplacement (mkRange (macroLoc 60) (macroLoc 65)) "QString::fromLatin1"], []) /\
  events (Qt4_QStringFromArray.fixitReplaceWithFromLatin1 (ctorCall (mkLoc (2 ^ 32 - 5)))) =
    Some [PrintLocation (mkLoc (2 ^ 32 - 5)); PrintLocation invalidLoc;
          PrintLocation invalidLoc;
          QueueManualFixitWarning (mkLoc (2 ^ 32 - 5)) Qt4_QStringFromArray.FixItToFromLatin1].
Proof.
  split; [|split].
  - exact (proj1 (C4_replace_constructor_three_stages (ctorCall (mkLoc 200))) eq_refl).
  - exact (proj1 (proj2 (C4_replace_constructor_three_stages (ctorCall (macroLoc 60))))
                 eq_refl eq_refl).
  - exact (proj2 (proj2 (proj2 (C4_replace_constructor_three_stages
                                  (ctorCall (mkLoc (2 ^ 32 - 5)))))
                        eq_refl eq_refl)).
Defined.

(** C5, counterexample: qt4-qstring-from-array on [s == MACRO], every
    fixit enabled.  The anti-pattern is matched and the synthesis routine
    fails with an empty list; the check emits its warning without edits,
    preceded by an "internal error" warning, and records no manual-fixit
    notice. *)
Lemma C5_counterexample_no_manual_notice :
  qt4Matches operatorCallOnMacro true "operator==" /\
  result (Qt4_QStringFromArray.fixOperatorCall operatorCallOnMacro) = Some [] /\
  events (Qt4_QStringFromArray.VisitStmt (allFixitsOn ∅) operatorCallOnMacro) =
    Some [EmitWarning (mkLoc 300) "internal error" [];
          EmitWarning (mkLoc 300) "QString::operator==(const char *) being called" []] /\
  ~ (exists evs loc fixitType,
        events (Qt4_QStringFromArray.VisitStmt (allFixitsOn ∅) operatorCallOnMacro) = Some evs /\
        In (QueueManualFixitWarning loc fixitType) evs).
Proof.
  split; [exists false; reflexivity|]. split; [reflexivity|]. split; [reflexivity|].
  intros (evs & loc & ft & Hev & Hin). vm_compute in Hev. injection Hev as <-.
  destruct Hin as [H|[H|[]]]; discriminate.
Qed.

Lemma operatorCallOnMacro_matches : qt4Matches operatorCallOnMacro true "operator==".
Proof. exists false. reflexivity. Defined.

Lemma ctorCall_matches (start : SourceLocation) : qt4Matches (ctorCall start) true "".
Proof. split; [reflexivity|]. exists false. reflexivity. Defined.

Lemma C5_witness :
  events (QDateTimeUtc.VisitStmt (allFixitsOn ∅) toTime_tChainNoEnd) =
    Some [QueueManualFixitWarning (mkLoc 100) QDateTimeUtc.FixitAll;
          EmitWarning (mkLoc 100)
            "Use QDateTime::currentDateTimeUtc().toTime_t() instead" []] /\
  events (Qt4_QStringFromArray.VisitStmt (allFixitsOn ∅) operatorCallOnMacro) =
    Some [EmitWarning (mkLoc 300) "internal error" [];
          EmitWarning (mkLoc 300) "QString::operator==(const char *) being called" []] /\
  events (Qt4_QStringFromArray.VisitStmt (allFixitsOn temporaryContext)
                                         (ctorCall (mkLoc (2 ^ 32 - 5)))) =
    Some [PrintLocation (mkLoc (2 ^ 32 - 5)); PrintLocation invalidLoc;
          PrintLocation invalidLoc;
          QueueManualFixitWarning (mkLoc (2 ^ 32 - 5)) Qt4_QStringFromArray.FixItToFromLatin1;
          EmitWarning (mkLoc (2 ^ 32 - 5)) "QString(const char *) ctor being called" []] /\
  Qt4_QStringFromArray.fixOperatorCall operatorCallOnMacro =
    Some ([], [EmitWarning (mkLoc 300) "internal error" []]) /\
  Qt4_QStringFromArray.fixMethodCallCall memberCallOnMacro =
    Some ([], [EmitWarning (mkLoc 360) "internal error" []]) /\
  Qt4_QStringFromArray.fixitInsertFromLatin1 ctorCallOnMacro =
    Some ([], [EmitWarning (mkLoc 200) "Internal error" []]).
Proof.
  destruct (C5_failure_keeps_the_warning (frontend := frontend) (utils := SpecModel.utils))
    as (Hutc & _ & Hqt4 & _ & Hop & Hmember & Hinsert & _ & _).
  split; [|split; [|split; [|split; [|split]]]].
  - exact (Hutc (allFixitsOn ∅) toTime_tChainNoEnd true
                toTime_tChainNoEnd_matches eq_refl eq_refl).
  - exact (Hqt4 (allFixitsOn ∅) operatorCallOnMacro true "operator=="
                [EmitWarning (mkLoc 300) "internal error" []]
                operatorCallOnMacro_matches eq_refl).
  - exact (Hqt4 (allFixitsOn temporaryContext) (ctorCall (mkLoc (2 ^ 32 - 5))) true ""
                [PrintLocation (mkLoc (2 ^ 32 - 5)); PrintLocation invalidLoc;
                 PrintLocation invalidLoc;
                 QueueManualFixitWarning (mkLoc (2 ^ 32 - 5))
                   Qt4_QStringFromArray.FixItToFromLatin1]
                (ctorCall_matches _) eq_refl).
  - apply (Hop operatorCallOnMacro). right.
    exists (token 22 (macroLoc 40)). split; reflexivity.
  - apply (Hmember memberCallOnMacro). right.
    exists (token 29 (macroLoc 50)). split; reflexivity.
  - apply (Hinsert ctorCallOnMacro (token 11 (macroLoc 30))); reflexivity.
Defined.

Lemma C6_witness :
  SpecModel.callListForChain toTime_tChain
    !! (length (SpecModel.callListForChain toTime_tChain) - 1)%nat
  = Some currentDateTimeCall /\
  exists firstMethod,
    getDirectCallee (outermostCall toTime_tChain) = Some firstMethod /\
    getQualifiedNameAsString firstMethod = "QDateTime::currentDateTime".
Proof.
  destruct C6_chain_ends_in_its_outermost_call as (_ & _ & _ & _ & Hlast & Hsrc).
  split.
  - apply (Hlast toTime_tChain). simpl. lia.
  - exact (Hsrc toTime_tChain true toTime_tChain_matches).
Defined.

Lemma C7_witness :
  let stmtNode := Dispatch.mkNode Dispatch.StatementNode 4 [] in
  let declNode := Dispatch.mkNode Dispatch.DeclarationNode 3 [] in
  In (Dispatch.mkInvocation Dispatch.QSetIntersects stmtNode)
     (Dispatch.dispatch enabledChecks mixedTree) /\
  Dispatch.nodeKind stmtNode <> Dispatch.DeclarationNode /\
  In (Dispatch.mkInvocation Dispatch.CtorMissingParentArgument declNode)
     (Dispatch.dispatch enabledChecks mixedTree) /\
  Dispatch.nodeKind declNode <> Dispatch.StatementNode.
Proof.
  intros stmtNode declNode.
  assert (Hs : In (Dispatch.mkInvocation Dispatch.QSetIntersects stmtNode)
                  (Dispatch.dispatch enabledChecks mixedTree)).
  { simpl. right. right. right. left. reflexivity. }
  assert (Hd : In (Dispatch.mkInvocation Dispatch.CtorMissingParentArgument declNode)
                  (Dispatch.dispatch enabledChecks mixedTree)).
  { simpl. right. right. left. reflexivity. }
  split; [exact Hs|]. split.
  - exact (proj1 (C7_dispatch_respects_declared_interest enabledChecks mixedTree
                    Dispatch.QSetIntersects) eq_refl eq_refl _ Hs eq_refl).
  - split; [exact Hd|].
    exact (proj2 (C7_dispatch_respects_declared_interest enabledChecks mixedTree
                    Dispatch.CtorMissingParentArgument) eq_refl eq_refl _ Hd eq_refl).
Defined.

Lemma C8_witness :
  exists evs,
    events (QDateTimeUtc.VisitStmt (allFixitsOn ∅) currentDateTimeCall) = Some evs /\
    evs = [].
Proof.
  destruct (C8_warning_iff_chain_matches (allFixitsOn ∅) currentDateTimeCall)
    as (evs & Hev & _ & Hnone).
  exists evs. split; [exact Hev|]. apply Hnone.
  intros b (Hcls & _). discriminate.
Defined.

Lemma C9_witness :
  fst (fst (Qt4_QStringFromArray.isInterestingCtorCall (Some QStringCtorDecl))) = true /\
  Qt4_QStringFromArray.isInterestingCtorCall
    (Some (mkFunctionDecl CXXConstructorKind "QString" "QString" "QString::QString"
             [mkParm "const char *"; mkParm "int"]))
  = Qt4_QStringFromArray.isInterestingCtorCall (Some QStringCtorDecl) /\
  fst (fst (Qt4_QStringFromArray.isInterestingCtorCall
              (Some (mkFunctionDecl CXXConstructorKind "QString" "QString" "QString::QString"
                       [mkParm "int"; mkParm "const char *"])))) = false.
Proof.
  destruct (C9_isInterestingCtorCall_first_parameter_only (utils := SpecModel.utils))
    as (Hiff & Hfirst & Hother).
  split; [|split].
  - apply (Hiff (Some QStringCtorDecl)).
    exists QStringCtorDecl, (mkParm "const char *"), [].
    split; [reflexivity|]. split; [reflexivity|]. split; [reflexivity|].
    right. reflexivity.
  - apply Hfirst; reflexivity.
  - apply (Hother _ (mkParm "int") [mkParm "const char *"]);
      [reflexivity | discriminate | discriminate].
Defined.

Lemma C10_witness :
  Qt4_QStringFromArray.fixOperatorCall operatorCallOneArg =
    Some ([], [EmitWarning (mkLoc 320) "internal error" []]) /\
  Qt4_QStringFromArray.fixMethodCallCall memberCallNoArg =
    Some ([], [EmitWarning (mkLoc 340) "internal error" []]).
Proof.
  destruct (C10_wrong_argument_count_is_internal_error
              (frontend := frontend) (utils := SpecModel.utils)) as [Hop Hmember].
  split.
  - apply (Hop operatorCallOneArg). vm_compute. discriminate.
  - apply (Hmember memberCallNoArg). vm_compute. discriminate.
Defined.

End Concrete.

(* ===================================================================== *)
(** ** Further properties of the two checks                              *)
(* ===================================================================== *)

Section Classification.
Context {frontend : ClangFrontend} {utils : ClazyUtils}.
Import Qt4_QStringFromArray.

Lemma isInterestingMethod_In (name : string) :
  isInterestingMethod name = true <-> In name methods.
Proof.
  unfold isInterestingMethod. rewrite List.existsb_exists. split.
  - intros (x & Hin & Heq). apply string_eqb_true in Heq. subst. exact Hin.
  - intros Hin. exists name. split; [exact Hin | apply String.eqb_refl].
Qed.

(** X1: the two flags of [isInterestingParam] and of
    [isInterestingCtorCall] name the kind of array: [is_byte_array] is set
    exactly for the type [const class QByteArray &], [is_char_array]
    exactly for the type [const char *]; the flags are never set
    together, and the answer of
    both functions is always the disjunction of the flags they return. *)
Theorem X1_flags_name_the_array_kind :
  (forall p : ParmVarDecl,
      (snd (isInterestingParam p) = true <->
         getTypeAsString p = "const class QByteArray &") /\
      (snd (fst (isInterestingParam p)) = true <->
         getTypeAsString p = "const char *") /\
      fst (fst (isInterestingParam p)) =
        snd (fst (isInterestingParam p)) || snd (isInterestingParam p) /\
      snd (fst (isInterestingParam p)) && snd (isInterestingParam p) = false) /\
  (forall ctor : option FunctionDecl,
      fst (fst (isInterestingCtorCall ctor)) =
        snd (fst (isInterestingCtorCall ctor)) || snd (isInterestingCtorCall ctor) /\
      snd (fst (isInterestingCtorCall ctor)) && snd (isInterestingCtorCall ctor) = false).
Proof.
  split.
  - intros p. unfold isInterestingParam.
    destruct (String.eqb (getTypeAsString p) "const class QByteArray &") eqn:Eb.
    + apply string_eqb_true in Eb. simpl. rewrite Eb.
      split; [tauto|]. split; [|split; reflexivity].
      split; discriminate.
    + apply string_eqb_false in Eb.
      destruct (String.eqb (getTypeAsString p) "const char *") eqn:Ec; simpl.
      * apply string_eqb_true in Ec.
        split; [split; [discriminate | contradiction]|].
        split; [tauto|]. split; reflexivity.
      * apply string_eqb_false in Ec.
        split; [split; [discriminate | contradiction]|].
        split; [split; [discriminate | contradiction]|]. split; reflexivity.
  - intros [c|]; simpl; [|split; reflexivity].
    destruct (isOfClass c "QString"); simpl; [|split; reflexivity].
    unfold ctorParamLoop. destruct (parameters c) as [|p rest]; [split; reflexivity|].
    destruct (isInterestingParam p) as [[r ca] ba] eqn:Eip.
    destruct (isInterestingParam_flags _ _ _ _ Eip) as [Hr Hx].
    destruct r; simpl; [split; [reflexivity | exact Hx]|].
    symmetry in Hr. apply orb_false_elim in Hr as [-> ->]. split; reflexivity.
Qed.

(** [isInterestingMethodCall] never reads out of bounds and makes no call
    on the check. *)
Lemma isInterestingMethodCall_defined (method : option FunctionDecl) (name0 : string) :
  exists r, isInterestingMethodCall method name0 = Some (r, []).
Proof.
  unfold isInterestingMethodCall. destruct method as [m|]; [|eauto].
  destruct (String.eqb (getParentName m) "QString"); simpl; [|eauto].
  destruct (Nat.eqb_spec (getNumParams m) 1) as [Hn|Hn]; simpl; [|eauto].
  destruct (isInterestingMethod (getNameAsString m)); simpl; [|eauto].
  unfold getParamDecl, getNumParams in *.
  destruct (parameters m) as [|p [|q rest]]; simpl in Hn; try discriminate.
  simpl. destruct (isInterestingParam p) as [[[] ca] ba]; simpl; eauto.
Qed.

(** X2: [isInterestingMethodCall] is defined on every input and makes no
    call on the check.  It answers true exactly for a non-null method of a
    record named QString that has exactly one parameter, of type
    [const class QByteArray &] or [const char *], and whose name is one of
    the ten listed; the name it then returns is the name of the method. *)
Theorem X2_isInterestingMethodCall_characterised
    (method : option FunctionDecl) (name0 : string) :
  exists r name ca ba,
    isInterestingMethodCall method name0 = Some ((r, name, ca, ba), []) /\
    (r = true <->
       exists m p,
         method = Some m /\ getParentName m = "QString" /\ parameters m = [p] /\
         In (getNameAsString m) methods /\
         (getTypeAsString p = "const class QByteArray &" \/
          getTypeAsString p = "const char *")) /\
    (r = true -> exists m, method = Some m /\ name = getNameAsString m).
Proof.
  unfold isInterestingMethodCall. destruct method as [m|].
  2: { exists false, name0, false, false. split; [reflexivity|].
       split; [|discriminate]. split; [discriminate|].
       intros (m & p & [=] & _). }
  destruct (String.eqb (getParentName m) "QString") eqn:Ep; simpl.
  2: { exists false, name0, false, false. split; [reflexivity|].
       split; [|discriminate]. split; [discriminate|].
       apply string_eqb_false in Ep.
       intros (m' & p & [= <-] & H & _). contradiction. }
  apply string_eqb_true in Ep.
  destruct (Nat.eqb_spec (getNumParams m) 1) as [Hn|Hn]; simpl.
  2: { exists false, name0, false, false. split; [reflexivity|].
       split; [|discriminate]. split; [discriminate|].
       intros (m' & p & [= <-] & _ & Hps & _). unfold getNumParams in Hn.
       rewrite Hps in Hn. simpl in Hn. congruence. }
  destruct (isInterestingMethod (getNameAsString m)) eqn:Em; simpl.
  2: { exists false, (getNameAsString m), false, false. split; [reflexivity|].
       split; [|discriminate]. split; [discriminate|].
       intros (m' & p & [= <-] & _ & _ & Hin & _).
       apply isInterestingMethod_In in Hin. congruence. }
  apply isInterestingMethod_In in Em.
  unfold getParamDecl, getNumParams in *.
  destruct (parameters m) as [|p [|q rest]] eqn:Eps; simpl in Hn; try discriminate.
  simpl. pose proof (isInterestingParam_true p) as Hp.
  destruct (isInterestingParam p) as [[r ca] ba]. simpl in Hp.
  destruct r; simpl.
  - exists true, (getNameAsString m), ca, ba. split; [reflexivity|]. split.
    + split; [|reflexivity]. intros _. exists m, p.
      split; [reflexivity|]. split; [exact Ep|]. split; [exact Eps|].
      split; [exact Em|]. apply Hp. reflexivity.
    + intros _. exists m. split; reflexivity.
  - exists false, (getNameAsString m), ca, ba. split; [reflexivity|].
    split; [|discriminate]. split; [discriminate|].
    intros (m' & p' & [= <-] & _ & Hps & _ & Hty).
    rewrite Eps in Hps. injection Hps as <-. apply Hp in Hty. discriminate.
Qed.

(** X3: an operator call is classified through its direct callee: when
    the callee is unresolved, or is a function that is not a C++ method,
    the answer is false and the name passed in is handed back; otherwise
    the answer is that of [isInterestingMethodCall] on the callee.  The
    classification is that of a member call with the same callee. *)
Theorem X3_operator_call_classified_by_its_method (op : Stmt) (name0 : string) :
  (getDirectCallee op = None ->
     isInterestingOperatorCall op name0 = Some ((false, name0, false, false), [])) /\
  (forall f, getDirectCallee op = Some f -> getDeclKind f = FunctionKind ->
     isInterestingOperatorCall op name0 = Some ((false, name0, false, false), [])) /\
  (forall f, getDirectCallee op = Some f -> getDeclKind f <> FunctionKind ->
     isInterestingOperatorCall op name0 = isInterestingMethodCall (Some f) name0) /\
  isInterestingOperatorCall op name0 = isInterestingMethodCall (getMethodDecl op) name0.
Proof.
  unfold isInterestingOperatorCall, getMethodDecl, getDirectCallee.
  split; [|split; [|split]].
  - intros ->. reflexivity.
  - intros f -> Hk. apply dyn_cast_CXXMethodDecl_None in Hk. rewrite Hk. reflexivity.
  - intros f -> Hk.
    destruct (dyn_cast_CXXMethodDecl f) as [g|] eqn:Ed.
    + apply dyn_cast_CXXMethodDecl_Some in Ed as [-> _]. reflexivity.
    + apply dyn_cast_CXXMethodDecl_None in Ed. contradiction.
  - destruct (getCalleeDecl op) as [f|]; reflexivity.
Qed.

End Classification.

Section Visiting.
Context {frontend : ClangFrontend} {utils : ClazyUtils}.
Import Qt4_QStringFromArray.

Lemma isInterestingOperatorCall_defined (op : Stmt) (name0 : string) :
  exists r, isInterestingOperatorCall op name0 = Some (r, []).
Proof.
  unfold isInterestingOperatorCall. destruct (getDirectCallee op); [|eauto].
  apply isInterestingMethodCall_defined.
Qed.

(** Either the anti-pattern is matched and the visit synthesizes and
    reports, or it is not and the visit returns without a call. *)
Lemma Qt4_VisitStmt_cases (this : CheckBase) (stm : Stmt) :
  (exists ca name,
      qt4Matches stm ca name /\
      VisitStmt this stm =
        (do fixits <- qt4Fix this stm;
         emitWarning (getLocStart stm) (qt4Message stm ca name) fixits)) \/
  ((forall ca name, ~ qt4Matches stm ca name) /\ VisitStmt this stm = Some (tt, [])).
Proof.
  destruct (getStmtClass stm) eqn:Ecls.
  1, 5, 6, 7:
    right; split;
      [ intros ca name H; unfold qt4Matches in H; rewrite Ecls in H; exact H
      | unfold VisitStmt, dyn_cast_CXXConstructExpr, dyn_cast_CXXOperatorCallExpr,
          dyn_cast_CXXMemberCallExpr; rewrite Ecls; reflexivity ].
  - destruct (isInterestingMethodCall_defined (getMethodDecl stm) "")
      as [[[[r n] ca] ba] E].
    destruct r.
    + left. exists ca, n.
      assert (Hm : qt4Matches stm ca n).
      { unfold qt4Matches. rewrite Ecls. exists ba. rewrite E. reflexivity. }
      split; [exact Hm | apply Qt4_VisitStmt_matched; exact Hm].
    + right. split.
      * intros ca' name' H. unfold qt4Matches in H. rewrite Ecls, E in H.
        destruct H as (ba' & H). discriminate.
      * unfold VisitStmt, dyn_cast_CXXConstructExpr, dyn_cast_CXXOperatorCallExpr,
          dyn_cast_CXXMemberCallExpr. rewrite Ecls. simpl. rewrite E. reflexivity.
  - destruct (isInterestingOperatorCall_defined stm "") as [[[[r n] ca] ba] E].
    destruct r.
    + left. exists ca, n.
      assert (Hm : qt4Matches stm ca n).
      { unfold qt4Matches. rewrite Ecls. exists ba. rewrite E. reflexivity. }
      split; [exact Hm | apply Qt4_VisitStmt_matched; exact Hm].
    + right. split.
      * intros ca' name' H. unfold qt4Matches in H. rewrite Ecls, E in H.
        destruct H as (ba' & H). discriminate.
      * unfold VisitStmt, dyn_cast_CXXConstructExpr, dyn_cast_CXXOperatorCallExpr,
          dyn_cast_CXXMemberCallExpr. rewrite Ecls. simpl. rewrite E. reflexivity.
  - destruct (isInterestingCtorCall (getConstructor stm)) as [[r ca] ba] eqn:E.
    destruct r.
    + left. exists ca, "".
      assert (Hm : qt4Matches stm ca "").
      { unfold qt4Matches. rewrite Ecls. split; [reflexivity|]. exists ba. exact E. }
      split; [exact Hm | apply Qt4_VisitStmt_matched; exact Hm].
    + right. split.
      * intros ca' name' H. unfold qt4Matches in H. rewrite Ecls, E in H.
        destruct H as (_ & ba' & H). discriminate.
      * unfold VisitStmt, dyn_cast_CXXConstructExpr, dyn_cast_CXXOperatorCallExpr,
          dyn_cast_CXXMemberCallExpr. rewrite Ecls. simpl. rewrite E. reflexivity.
Qed.

(** X4: [Qt4_QStringFromArray::VisitStmt] reports exactly the matched
    statements.  On a statement that does not match, it returns without
    any call on the check.  On one that matches it runs the synthesis
    routine of the node's class and then emits one warning at the start of
    the statement with the edits the routine returned, after whatever the
    routine emitted; it is undefined only where the routine is. *)
Theorem X4_qt4_reports_exactly_the_matched (this : CheckBase) (stm : Stmt) :
  ((forall ca name, ~ qt4Matches stm ca name) -> VisitStmt this stm = Some (tt, [])) /\
  (forall ca name fixits notices,
      qt4Matches stm ca name -> qt4Fix this stm = Some (fixits, notices) ->
      VisitStmt this stm =
        Some (tt, notices ++
                  [EmitWarning (getLocStart stm) (qt4Message stm ca name) fixits])) /\
  (forall ca name,
      qt4Matches stm ca name -> qt4Fix this stm = None -> VisitStmt this stm = None).
Proof.
  split; [|split].
  - intros Hno. destruct (Qt4_VisitStmt_cases this stm) as [(ca & n & Hm & _) | [_ H]];
      [exfalso; exact (Hno ca n Hm) | exact H].
  - intros ca name fixits notices Hm Hfix.
    rewrite (Qt4_VisitStmt_matched this stm ca name Hm), Hfix. reflexivity.
  - intros ca name Hm Hfix.
    rewrite (Qt4_VisitStmt_matched this stm ca name Hm), Hfix. reflexivity.
Qed.

Lemma isInterestingParam_type (p : ParmVarDecl) (ca ba : bool) :
  isInterestingParam p = (true, ca, ba) ->
  getTypeAsString p = if ca then "const char *" else "const class QByteArray &".
Proof.
  unfold isInterestingParam.
  destruct (String.eqb (getTypeAsString p) "const class QByteArray &") eqn:Eb.
  - simpl. intros [= <- _]. apply string_eqb_true. exact Eb.
  - destruct (String.eqb (getTypeAsString p) "const char *") eqn:Ec; simpl.
    + intros [= <- _]. apply string_eqb_true. exact Ec.
    + discriminate.
Qed.

Lemma isInterestingMethodCall_true (method : option FunctionDecl)
    (name0 name : string) (ca ba : bool) (evs : list Event) :
  isInterestingMethodCall method name0 = Some ((true, name, ca, ba), evs) ->
  exists m p,
    method = Some m /\ parameters m = [p] /\ name = getNameAsString m /\
    In name methods /\ isInterestingParam p = (true, ca, ba).
Proof.
  unfold isInterestingMethodCall. destruct method as [m|]; [|discriminate].
  destruct (negb _ || negb (getNumParams m =? 1)%nat) eqn:Eg; [discriminate|].
  apply orb_false_elim in Eg as [_ Hn]. apply negb_false_iff in Hn.
  apply Nat.eqb_eq in Hn.
  destruct (isInterestingMethod (getNameAsString m)) eqn:Em; simpl; [|discriminate].
  apply isInterestingMethod_In in Em.
  unfold getParamDecl, getNumParams in *.
  destruct (parameters m) as [|p [|q rest]] eqn:Eps; simpl in Hn; try discriminate.
  simpl. destruct (isInterestingParam p) as [[r ca'] ba'] eqn:Eip.
  destruct r; simpl; intros [= <- <- <- <-].
  exists m, p. auto.
Qed.

(** X5: the flag and the name of a matched statement describe the callee
    the statement resolves to, so the warning names the overload that is
    called: the callee's first parameter has the type [const char *] when
    [is_char_array] is set and [const class QByteArray &] when it is not;
    for an operator or member call that parameter is the only one and the
    name in the message is the callee's, one of the ten listed. *)
Theorem X5_warning_names_the_overload (stm : Stmt) (ca : bool) (name : string) :
  qt4Matches stm ca name ->
  exists d p,
    getCalleeDecl stm = Some d /\ head (parameters d) = Some p /\
    getTypeAsString p = (if ca then "const char *" else "const class QByteArray &") /\
    (getStmtClass stm <> CXXConstructExprClass ->
       parameters d = [p] /\ name = getNameAsString d /\ In name methods).
Proof.
  unfold qt4Matches. destruct (getStmtClass stm) eqn:Ecls; try contradiction.
  - intros (ba & Hr). unfold result in Hr.
    destruct (isInterestingMethodCall (getMethodDecl stm) "") as [[r evs]|] eqn:E;
      [|discriminate].
    simpl in Hr. injection Hr as ->.
    apply isInterestingMethodCall_true in E as (m & p & Hm & Hps & Hn & Hin & Hip).
    unfold getMethodDecl in Hm. destruct (getCalleeDecl stm) as [d|]; [|discriminate].
    simpl in Hm. apply dyn_cast_CXXMethodDecl_Some in Hm as [-> _].
    exists d, p. split; [reflexivity|]. rewrite Hps. split; [reflexivity|].
    split; [exact (isInterestingParam_type _ _ _ Hip) | auto].
  - intros (ba & Hr). unfold result in Hr.
    destruct (isInterestingOperatorCall stm "") as [[r evs]|] eqn:E; [|discriminate].
    simpl in Hr. injection Hr as ->.
    unfold isInterestingOperatorCall, getDirectCallee in E.
    destruct (getCalleeDecl stm) as [d|]; [|discriminate].
    apply isInterestingMethodCall_true in E as (m & p & Hm & Hps & Hn & Hin & Hip).
    apply dyn_cast_CXXMethodDecl_Some in Hm as [-> _].
    exists d, p. split; [reflexivity|]. rewrite Hps. split; [reflexivity|].
    split; [exact (isInterestingParam_type _ _ _ Hip) | auto].
  - intros (-> & ba & E). unfold getConstructor in E.
    destruct (getCalleeDecl stm) as [d|]; [|discriminate].
    assert (Hc : isInterestingCtorCall (Some d) = (true, ca, ba)).
    { destruct (getDeclKind d); try discriminate. exact E. }
    clear E. simpl in Hc.
    destruct (isOfClass d "QString"); simpl in Hc; [|discriminate].
    unfold ctorParamLoop in Hc.
    destruct (parameters d) as [|p rest] eqn:Eps; [discriminate|].
    destruct (isInterestingParam p) as [[r ca'] ba'] eqn:Eip.
    destruct (isInterestingParam_flags _ _ _ _ Eip) as [Hr _].
    destruct r; [|discriminate]. injection Hc as _ -> ->.
    exists d, p. split; [reflexivity|]. rewrite Eps. split; [reflexivity|].
    split; [exact (isInterestingParam_type _ _ _ Eip) | intros H; contradiction].
Qed.

End Visiting.

Section Synthesis.
Context {frontend : ClangFrontend} {utils : ClazyUtils}.
Import Qt4_QStringFromArray.

(** The context decides the routine of [fixCtorCall]. *)
Lemma fixCtorCall_cases (this : CheckBase) (ctorExpr : Stmt) :
  (boundAndCast (m_parentMap this) ctorExpr /\
   fixCtorCall this ctorExpr = fixitReplaceWithFromLatin1 ctorExpr) \/
  (~ boundAndCast (m_parentMap this) ctorExpr /\
   fixCtorCall this ctorExpr = fixitInsertFromLatin1 ctorExpr).
Proof.
  unfold fixCtorCall, parent, boundAndCast.
  destruct (m_parentMap this !! stmtId ctorExpr) as [p|] eqn:Hp.
  2: { right. split; [intros (p & g & [=] & _) | reflexivity]. }
  destruct (m_parentMap this !! stmtId p) as [g|] eqn:Hg.
  2: { right. split; [|reflexivity].
       intros (p' & g' & [= <-] & Hg' & _). congruence. }
  unfold isa_CXXBindTemporaryExpr, isa_CXXFunctionalCastExpr.
  destruct (getStmtClass p) eqn:Cp;
    try (right; split; [|reflexivity];
         intros (p' & g' & [= <-] & Hg' & Cp' & _); congruence).
  destruct (getStmtClass g) eqn:Cg;
    try (right; split; [|reflexivity];
         intros (p' & g' & [= <-] & Hg' & _ & Cg');
         rewrite Hg in Hg'; injection Hg' as <-; congruence).
  left. split; [|reflexivity]. exists p, g. auto.
Qed.

Lemma replace_routine_outcome (ctorExpr : Stmt) :
  let rangeStart := getLocStart ctorExpr in
  ((loc_isValid (getLocForEndOfToken rangeStart (-1)) = true \/
    loc_isValid (getLocWithOffset rangeStart 5) = true) /\
   exists rangeEnd,
      fixitReplaceWithFromLatin1 ctorExpr =
        Some ([CreateReplacement (mkRange rangeStart rangeEnd) "QString::fromLatin1"], [])) \/
  (loc_isValid (getLocForEndOfToken rangeStart (-1)) = false /\
   loc_isValid (getLocWithOffset rangeStart 5) = false /\
   exists l1 l2 l3,
     fixitReplaceWithFromLatin1 ctorExpr =
       Some ([], [PrintLocation l1; PrintLocation l2; PrintLocation l3;
                  QueueManualFixitWarning rangeStart FixItToFromLatin1])).
Proof.
  simpl. unfold fixitReplaceWithFromLatin1, loc_isInvalid.
  change fallbackOffset with 5.
  destruct (loc_isValid (getLocForEndOfToken (getLocStart ctorExpr) (-1))); simpl;
    [left; eauto|].
  destruct (loc_isValid (getLocWithOffset (getLocStart ctorExpr) 5)); simpl;
    [left; eauto|].
  right. split; [reflexivity|]. split; [reflexivity|]. eauto.
Qed.

Lemma wrapping_routines_outcome (x : Stmt) (fixits : list FixItHint) (evs : list Event) :
  fixOperatorCall x = Some (fixits, evs) \/
  fixMethodCallCall x = Some (fixits, evs) \/
  fixitInsertFromLatin1 x = Some (fixits, evs) ->
  evs = [] \/ (fixits = [] /\ exists msg, evs = [EmitWarning (getLocStart x) msg []]).
Proof.
  unfold fixOperatorCall, fixMethodCallCall, fixitInsertFromLatin1.
  intros [H | [H | H]]; revert H.
  - destruct (getNumArgs x =? 2)%nat; [|intros [= <- <-]; eauto].
    destruct (getArg x 1); simpl; [|discriminate].
    case_range; simpl; intros [= <- <-]; eauto.
  - destruct (getNumArgs x =? 1)%nat; [|intros [= <- <-]; eauto].
    destruct (getArg x 0); simpl; [|discriminate].
    case_range; simpl; intros [= <- <-]; eauto.
  - destruct (getArg x 0); simpl; [|discriminate].
    case_range; simpl; intros [= <- <-]; eauto.
Qed.

(** X6: correct edit or no edit.  Whenever one of the five synthesis
    routines of qt4-qstring-from-array makes a call on the check (an
    "internal error" warning, a printed location, a manual-fixit notice),
    the list of edits it returns is empty; a routine that returns an edit
    has emitted nothing. *)
Theorem X6_edits_and_notices_exclude_each_other
    (this : CheckBase) (x : Stmt) (fixits : list FixItHint) (evs : list Event) :
  fixOperatorCall x = Some (fixits, evs) \/
  fixMethodCallCall x = Some (fixits, evs) \/
  fixitInsertFromLatin1 x = Some (fixits, evs) \/
  fixitReplaceWithFromLatin1 x = Some (fixits, evs) \/
  fixCtorCall this x = Some (fixits, evs) ->
  fixits = [] \/ evs = [].
Proof.
  assert (Hwrap : forall fx ev,
             fixOperatorCall x = Some (fx, ev) \/ fixMethodCallCall x = Some (fx, ev) \/
             fixitInsertFromLatin1 x = Some (fx, ev) -> fx = [] \/ ev = []).
  { intros fx ev H. destruct (wrapping_routines_outcome x fx ev H) as [-> | [-> _]]; auto. }
  assert (Hrep : forall fx ev,
             fixitReplaceWithFromLatin1 x = Some (fx, ev) -> fx = [] \/ ev = []).
  { intros fx ev H.
    destruct (replace_routine_outcome x) as [(_ & e & E) | (_ & _ & l1 & l2 & l3 & E)];
      rewrite E in H; injection H as <- <-; auto. }
  intros [H | [H | [H | [H | H]]]]; auto.
  destruct (fixCtorCall_cases this x) as [[_ E] | [_ E]]; rewrite E in H; auto.
Qed.

(** X7: bounds.  [fixOperatorCall], [fixMethodCallCall] and
    [fixitReplaceWithFromLatin1] never read past the end of the argument
    list: they are defined on every node.  [fixitInsertFromLatin1] reads
    the first argument without a test and is defined exactly on nodes that
    have one.  The visit is defined on every node that is not a
    constructor call, and on every constructor call with an argument. *)
Theorem X7_argument_reads_stay_in_bounds :
  (forall x : Stmt, fixOperatorCall x <> None) /\
  (forall x : Stmt, fixMethodCallCall x <> None) /\
  (forall x : Stmt, fixitReplaceWithFromLatin1 x <> None) /\
  (forall x : Stmt, fixitInsertFromLatin1 x <> None <-> arguments x <> []) /\
  (forall (this : CheckBase) (stm : Stmt),
      getStmtClass stm <> CXXConstructExprClass \/ arguments stm <> [] ->
      VisitStmt this stm <> None).
Proof.
  assert (Hop : forall x : Stmt, fixOperatorCall x <> None).
  { intros x. unfold fixOperatorCall, getNumArgs, getArg.
    destruct (Nat.eqb_spec (length (arguments x)) 2) as [Hn|_]; [|discriminate].
    destruct (arguments x) as [|a [|e [|c l]]]; simpl in Hn; try discriminate.
    simpl. case_range; discriminate. }
  assert (Hmem : forall x : Stmt, fixMethodCallCall x <> None).
  { intros x. unfold fixMethodCallCall, getNumArgs, getArg.
    destruct (Nat.eqb_spec (length (arguments x)) 1) as [Hn|_]; [|discriminate].
    destruct (arguments x) as [|e [|c l]]; simpl in Hn; try discriminate.
    simpl. case_range; discriminate. }
  assert (Hrep : forall x : Stmt, fixitReplaceWithFromLatin1 x <> None).
  { intros x.
    destruct (replace_routine_outcome x) as [(_ & e & E) | (_ & _ & l1 & l2 & l3 & E)];
      rewrite E; discriminate. }
  assert (Hins : forall x : Stmt, fixitInsertFromLatin1 x <> None <-> arguments x <> []).
  { intros x. unfold fixitInsertFromLatin1, getArg.
    destruct (arguments x) as [|a l]; simpl.
    - split; intros H; contradiction.
    - split; [discriminate|]. intros _. case_range; discriminate. }
  split; [exact Hop|]. split; [exact Hmem|]. split; [exact Hrep|]. split; [exact Hins|].
  intros this stm Hok.
  destruct (Qt4_VisitStmt_cases this stm) as [(ca & n & Hm & ->) | [_ ->]]; [|discriminate].
  assert (Hfix : qt4Fix this stm <> None).
  { unfold qt4Fix. unfold qt4Matches in Hm.
    destruct (getStmtClass stm) eqn:Ecls; try contradiction;
      [apply Hmem | apply Hop |].
    destruct Hok as [Hok | Hok]; [congruence|].
    destruct (fixCtorCall_cases this stm) as [[_ ->] | [_ ->]];
      [apply Hrep | apply Hins; exact Hok]. }
  destruct (qt4Fix this stm) as [[fx ev]|]; [discriminate | contradiction].
Qed.

(** X8: the operator-call and the member-call routines are the same
    function of the wrapped argument: an operator call with two arguments
    and a member call with one get the same edits when the right operand of
    the first is the argument of the second.  The left operand does not
    enter the edit. *)
Theorem X8_operator_and_member_fixes_agree (op memberExpr e : Stmt) :
  getNumArgs op = 2%nat -> getArg op 1 = Some e ->
  getNumArgs memberExpr = 1%nat -> getArg memberExpr 0 = Some e ->
  result (fixOperatorCall op) = result (fixMethodCallCall memberExpr).
Proof.
  intros Hn He Hn' He'. unfold fixOperatorCall, fixMethodCallCall.
  rewrite Hn, He, Hn', He'. simpl. case_range; reflexivity.
Qed.

Lemma qt4Fix_diagnosedAt (this : CheckBase) (stm : Stmt) fixits evs :
  qt4Fix this stm = Some (fixits, evs) -> Forall (diagnosedAt (getLocStart stm)) evs.
Proof.
  assert (Hwrap : forall fx ev,
             fixOperatorCall stm = Some (fx, ev) \/ fixMethodCallCall stm = Some (fx, ev) \/
             fixitInsertFromLatin1 stm = Some (fx, ev) ->
             Forall (diagnosedAt (getLocStart stm)) ev).
  { intros fx ev H.
    destruct (wrapping_routines_outcome stm fx ev H) as [-> | [_ [msg ->]]];
      repeat constructor. }
  assert (Hrep : forall fx ev,
             fixitReplaceWithFromLatin1 stm = Some (fx, ev) ->
             Forall (diagnosedAt (getLocStart stm)) ev).
  { intros fx ev H.
    destruct (replace_routine_outcome stm) as [(_ & e & E) | (_ & _ & l1 & l2 & l3 & E)];
      rewrite E in H; injection H as <- <-; repeat constructor. }
  unfold qt4Fix. destruct (getStmtClass stm); try discriminate; intros H; eauto.
  destruct (fixCtorCall_cases this stm) as [[_ E] | [_ E]]; rewrite E in H; eauto.
Qed.

(** X9: every warning and every manual-fixit notice of the two checks is
    attached to the start of the visited statement, the "internal error"
    warnings of the synthesis routines included. *)
Theorem X9_diagnostics_sit_at_the_statement_start :
  (forall (this : CheckBase) (stm : Stmt) (evs : list Event),
      events (VisitStmt this stm) = Some evs ->
      Forall (diagnosedAt (getLocStart stm)) evs) /\
  (forall (this : CheckBase) (stmt : Stmt) (evs : list Event),
      events (QDateTimeUtc.VisitStmt this stmt) = Some evs ->
      Forall (diagnosedAt (getLocStart stmt)) evs).
Proof.
  split.
  - intros this stm evs.
    destruct (Qt4_VisitStmt_cases this stm) as [(ca & n & Hm & ->) | [_ ->]].
    + destruct (qt4Fix this stm) as [[fx ev]|] eqn:Efix; simpl; [|discriminate].
      intros [= <-]. apply Forall_app. split.
      * exact (qt4Fix_diagnosedAt this stm fx ev Efix).
      * repeat constructor.
    + simpl. intros [= <-]. constructor.
  - intros this stmt evs.
    destruct (VisitStmt_cases this stmt) as [(b & Hm & ->) | (_ & ->)].
    + rewrite report_events. simpl. intros [= <-]. apply Forall_app. split.
      * unfold manualNotice. destruct (_ && _); repeat constructor.
      * repeat constructor.
    + simpl. intros [= <-]. constructor.
Qed.

(** X10: qdatetime-utc queues a manual-fixit notice exactly when the
    statement matches, the fixit is enabled and
    [transformTwoCallsIntoOneV2] reports failure. *)
Theorem X10_utc_notice_iff_enabled_fix_fails (this : CheckBase) (stmt : Stmt) :
  exists evs,
    events (QDateTimeUtc.VisitStmt this stmt) = Some evs /\
    ((exists loc fixitType, In (QueueManualFixitWarning loc fixitType) evs) <->
     (exists isTimeT,
         chainMatches stmt isTimeT /\
         isFixitEnabled this QDateTimeUtc.FixitAll = true /\
         fst (transformTwoCallsIntoOneV2 stmt (QDateTimeUtc.replacementFor isTimeT) [])
           = false)).
Proof.
  destruct (VisitStmt_cases this stmt) as [(b & Hm & ->) | (Hn & ->)].
  - rewrite report_events. eexists. split; [reflexivity|].
    unfold manualNotice.
    destruct (isFixitEnabled this QDateTimeUtc.FixitAll) eqn:Een;
      [destruct (fst (transformTwoCallsIntoOneV2 stmt _ [])) eqn:Efail|]; simpl.
    + split.
      * intros (loc & ft & [H|[]]). discriminate.
      * intros (b' & Hm' & _ & Hf).
        rewrite (chainMatches_functional stmt b' b Hm' Hm) in Hf. congruence.
    + split.
      * intros _. exists b. auto.
      * intros _. do 2 eexists. left. reflexivity.
    + split.
      * intros (loc & ft & [H|[]]). discriminate.
      * intros (b' & _ & H & _). discriminate.
  - exists []. split; [reflexivity|]. split.
    + intros (loc & ft & []).
    + intros (b & Hb & _). exfalso. exact (Hn b Hb).
Qed.

(** X11: with the fixit disabled qdatetime-utc does not ask for edits: a
    matching statement gets one warning without edits and nothing else,
    whatever the synthesis helper would answer.  The message names
    [QDateTime::currentDateTimeUtc().toTime_t()] for a [toTime_t] call and
    [QDateTime::currentDateTimeUtc()] for a [toUTC] call. *)
Theorem X11_utc_fixit_disabled_is_text_only
    (this : CheckBase) (stmt : Stmt) (isTimeT : bool) :
  chainMatches stmt isTimeT ->
  isFixitEnabled this QDateTimeUtc.FixitAll = false ->
  QDateTimeUtc.VisitStmt this stmt =
    Some (tt, [EmitWarning (getLocStart stmt)
                 (if isTimeT
                  then "Use QDateTime::currentDateTimeUtc().toTime_t() instead"
                  else "Use QDateTime::currentDateTimeUtc() instead") []]).
Proof.
  intros Hm Hoff.
  destruct (VisitStmt_cases this stmt) as [(b & Hm' & ->) | (Hn & _)];
    [|exfalso; exact (Hn _ Hm)].
  rewrite (chainMatches_functional stmt b isTimeT Hm' Hm).
  rewrite report_events. unfold manualNotice, attachedFixits. rewrite Hoff.
  destruct isTimeT; reflexivity.
Qed.

(** X12: qt4-qstring-from-array queues a manual-fixit notice exactly in
    one situation: the statement is a matched constructor call used as a
    temporary, and both the end-of-token location and the shifted fallback
    location of the replace routine are invalid. *)
Theorem X12_qt4_notice_only_from_failed_replace
    (this : CheckBase) (stm : Stmt) (evs : list Event) :
  events (VisitStmt this stm) = Some evs ->
  ((exists loc fixitType, In (QueueManualFixitWarning loc fixitType) evs) <->
   (getStmtClass stm = CXXConstructExprClass /\
    (exists ca, qt4Matches stm ca "") /\
    boundAndCast (m_parentMap this) stm /\
    loc_isValid (getLocForEndOfToken (getLocStart stm) (-1)) = false /\
    loc_isValid (getLocWithOffset (getLocStart stm) 5) = false)).
Proof.
  assert (Hwrap : forall fx ev,
             fixOperatorCall stm = Some (fx, ev) \/ fixMethodCallCall stm = Some (fx, ev) \/
             fixitInsertFromLatin1 stm = Some (fx, ev) ->
             forall loc ft tail, ~ In (QueueManualFixitWarning loc ft)
                                      (ev ++ [EmitWarning (getLocStart stm) tail fx])).
  { intros fx ev H loc ft tail Hin.
    destruct (wrapping_routines_outcome stm fx ev H) as [-> | [_ [msg ->]]];
      simpl in Hin; intuition discriminate. }
  destruct (Qt4_VisitStmt_cases this stm) as [(ca & n & Hm & ->) | [Hno ->]].
  2: { simpl. intros [= <-]. split.
       - intros (loc & ft & []).
       - intros (_ & (ca & Hm) & _). exfalso. exact (Hno ca "" Hm). }
  destruct (qt4Fix this stm) as [[fx ev]|] eqn:Efix; simpl; [|discriminate].
  intros [= <-]. unfold qt4Fix in Efix.
  destruct (getStmtClass stm) eqn:Ecls; try discriminate.
  - split; [|intros (H & _); discriminate].
    intros (loc & ft & Hin). exfalso. eapply Hwrap; eauto.
  - split; [|intros (H & _); discriminate].
    intros (loc & ft & Hin). exfalso. eapply Hwrap; eauto.
  - destruct (fixCtorCall_cases this stm) as [[Hb E] | [Hnb E]]; rewrite E in Efix.
    + destruct (replace_routine_outcome stm)
        as [(Hv & e & E') | (H1 & H2 & l1 & l2 & l3 & E')];
        rewrite E' in Efix; injection Efix as <- <-.
      * split.
        -- intros (loc & ft & Hin). simpl in Hin. intuition discriminate.
        -- intros (_ & _ & _ & H1 & H2). simpl in Hv. destruct Hv; congruence.
      * split.
        -- intros _. split; [reflexivity|]. split; [|auto].
           unfold qt4Matches in Hm. rewrite Ecls in Hm. destruct Hm as [-> Hm].
           exists ca. unfold qt4Matches. rewrite Ecls. auto.
        -- intros _. do 2 eexists. simpl. do 3 right. left. reflexivity.
    + split; [|intros (_ & _ & Hb & _); contradiction].
      intros (loc & ft & Hin). exfalso. eapply Hwrap; eauto.
Qed.

(** X13: qt4-qstring-from-array does not consult the fixit toggle: two
    check objects with the same parent map give the same outcome on every
    statement, edits included, whether their fixits are enabled or not. *)
Theorem X13_qt4_does_not_read_the_fixit_toggle (this this' : CheckBase) (stm : Stmt) :
  m_parentMap this = m_parentMap this' ->
  VisitStmt this stm = VisitStmt this' stm.
Proof.
  intros Hpm. unfold VisitStmt, fixCtorCall. rewrite Hpm. reflexivity.
Qed.

(** X14: the three wrapping routines build edits from valid ranges only:
    a list they return is empty or is what [insertParentMethodCall] makes
    of the method name [QString::fromLatin1] and a range whose two ends are
    valid. *)
Theorem X14_wrapping_edits_come_from_valid_ranges (x : Stmt) (fixits : list FixItHint) :
  result (fixOperatorCall x) = Some fixits \/
  result (fixMethodCallCall x) = Some fixits \/
  result (fixitInsertFromLatin1 x) = Some fixits ->
  fixits = [] \/
  exists range,
    range_isValid range = true /\
    fixits = insertParentMethodCall "QString::fromLatin1" range [].
Proof.
  unfold fixOperatorCall, fixMethodCallCall, fixitInsertFromLatin1, range_isInvalid.
  intros [H | [H | H]]; revert H.
  - destruct (getNumArgs x =? 2)%nat; [|intros [= <-]; auto].
    destruct (getArg x 1); simpl; [|discriminate].
    match goal with |- context [range_isValid ?r] => destruct (range_isValid r) eqn:Ev end;
      simpl; intros [= <-]; eauto.
  - destruct (getNumArgs x =? 1)%nat; [|intros [= <-]; auto].
    destruct (getArg x 0); simpl; [|discriminate].
    match goal with |- context [range_isValid ?r] => destruct (range_isValid r) eqn:Ev end;
      simpl; intros [= <-]; eauto.
  - destruct (getArg x 0); simpl; [|discriminate].
    match goal with |- context [range_isValid ?r] => destruct (range_isValid r) eqn:Ev end;
      simpl; intros [= <-]; eauto.
Qed.

(** X15: what the replace routine returns is empty or a single
    replacement by [QString::fromLatin1] that begins at the start of the
    constructor call and ends at a valid location. *)
Theorem X15_replace_edit_ends_at_a_valid_location (x : Stmt) (fixits : list FixItHint) :
  result (fixitReplaceWithFromLatin1 x) = Some fixits ->
  fixits = [] \/
  exists rangeEnd,
    loc_isValid rangeEnd = true /\
    fixits = [CreateReplacement (mkRange (getLocStart x) rangeEnd) "QString::fromLatin1"].
Proof.
  unfold fixitReplaceWithFromLatin1, loc_isInvalid.
  destruct (loc_isValid (getLocForEndOfToken (getLocStart x) (-1))) eqn:E1; simpl.
  - intros [= <-]. right. eauto.
  - destruct (loc_isValid (getLocWithOffset (getLocStart x) fallbackOffset)) eqn:E2; simpl.
    + intros [= <-]. right. eauto.
    + intros [= <-]. left. reflexivity.
Qed.

End Synthesis.

Section Concrete_further.
Import Examples.
Existing Instance Examples.frontend.
Existing Instance SpecModel.utils.

Lemma X1_witness :
  snd (fst (Qt4_QStringFromArray.isInterestingParam (mkParm "const char *"))) = true /\
  fst (fst (Qt4_QStringFromArray.isInterestingCtorCall (Some QStringCtorDecl))) =
    snd (fst (Qt4_QStringFromArray.isInterestingCtorCall (Some QStringCtorDecl))) ||
    snd (Qt4_QStringFromArray.isInterestingCtorCall (Some QStringCtorDecl)).
Proof.
  destruct (X1_flags_name_the_array_kind (utils := SpecModel.utils)) as [Hparam Hctor].
  split.
  - apply (proj1 (proj2 (Hparam (mkParm "const char *")))). reflexivity.
  - exact (proj1 (Hctor (Some QStringCtorDecl))).
Defined.

Lemma X2_witness :
  exists ca ba,
    Qt4_QStringFromArray.isInterestingMethodCall (Some appendDecl) ""
      = Some ((true, "append", ca, ba), []).
Proof.
  destruct (X2_isInterestingMethodCall_characterised (Some appendDecl) "")
    as (r & name & ca & ba & Hrun & Hiff & Hname).
  assert (Hr : r = true).
  { apply Hiff. exists appendDecl, (mkParm "const class QByteArray &").
    split; [reflexivity|]. split; [reflexivity|]. split; [reflexivity|].
    split; [simpl; tauto | left; reflexivity]. }
  destruct (Hname Hr) as (m & [= <-] & ->). subst r.
  exists ca, ba. exact Hrun.
Defined.

Lemma X3_witness :
  Qt4_QStringFromArray.isInterestingOperatorCall freeOperatorCall "" =
    Some ((false, "", false, false), []) /\
  Qt4_QStringFromArray.isInterestingOperatorCall operatorCall "" =
    Qt4_QStringFromArray.isInterestingMethodCall (Some operatorEqDecl) "".
Proof.
  split.
  - apply (proj1 (proj2 (X3_operator_call_classified_by_its_method freeOperatorCall ""))
             _ eq_refl eq_refl).
  - apply (proj1 (proj2 (proj2 (X3_operator_call_classified_by_its_method operatorCall "")))
             _ eq_refl). discriminate.
Defined.

Lemma operatorCall_matches : qt4Matches operatorCall true "operator==".
Proof. exists false. reflexivity. Defined.

Lemma token_not_matched (ca : bool) (name : string) :
  ~ qt4Matches (token 21 (mkLoc 300)) ca name.
Proof. intros H. exact H. Defined.

Lemma X4_witness :
  Qt4_QStringFromArray.VisitStmt (allFixitsOn ∅) (token 21 (mkLoc 300)) = Some (tt, []) /\
  Qt4_QStringFromArray.VisitStmt (allFixitsOn ∅) operatorCall =
    Some (tt, [EmitWarning (mkLoc 300) "QString::operator==(const char *) being called"
                 [CreateInsertion (mkLoc 305) "QString::fromLatin1(";
                  CreateInsertion (mkLoc 310) ")"]]).
Proof.
  split.
  - exact (proj1 (X4_qt4_reports_exactly_the_matched (allFixitsOn ∅) (token 21 (mkLoc 300)))
                 token_not_matched).
  - exact (proj1 (proj2 (X4_qt4_reports_exactly_the_matched (allFixitsOn ∅) operatorCall))
                 true "operator==" _ [] operatorCall_matches eq_refl).
Defined.

Lemma X5_witness :
  exists d p,
    getCalleeDecl operatorCall = Some d /\ head (parameters d) = Some p /\
    getTypeAsString p = "const char *" /\
    (getStmtClass operatorCall <> CXXConstructExprClass ->
       parameters d = [p] /\ "operator==" = getNameAsString d /\
       In "operator==" Qt4_QStringFromArray.methods).
Proof.
  exact (X5_warning_names_the_overload operatorCall true "operator==" operatorCall_matches).
Defined.

Lemma X6_witness :
  [CreateInsertion (mkLoc 305) "QString::fromLatin1("; CreateInsertion (mkLoc 310) ")"] = [] \/
  @nil Event = [].
Proof.
  apply (X6_edits_and_notices_exclude_each_other (allFixitsOn ∅) operatorCall).
  left. reflexivity.
Defined.

Lemma X7_witness :
  Qt4_QStringFromArray.VisitStmt (allFixitsOn initializerContext) (ctorCall (mkLoc 200))
    <> None /\
  Qt4_QStringFromArray.fixitInsertFromLatin1 (ctorCall (mkLoc 200)) <> None.
Proof.
  destruct (X7_argument_reads_stay_in_bounds (frontend := frontend) (utils := SpecModel.utils))
    as (_ & _ & _ & Hins & Hvisit).
  split.
  - apply Hvisit. right. discriminate.
  - apply Hins. discriminate.
Defined.

Lemma X8_witness :
  result (Qt4_QStringFromArray.fixOperatorCall operatorCall) =
  result (Qt4_QStringFromArray.fixMethodCallCall memberCall).
Proof.
  apply (X8_operator_and_member_fixes_agree operatorCall memberCall (token 22 (mkLoc 305)));
    reflexivity.
Defined.

Lemma X9_witness :
  Forall (diagnosedAt (mkLoc 300))
    [EmitWarning (mkLoc 300) "internal error" [];
     EmitWarning (mkLoc 300) "QString::operator==(const char *) being called" []] /\
  Forall (diagnosedAt (mkLoc 100))
    [QueueManualFixitWarning (mkLoc 100) QDateTimeUtc.FixitAll;
     EmitWarning (mkLoc 100) "Use QDateTime::currentDateTimeUtc().toTime_t() instead" []].
Proof.
  destruct (X9_diagnostics_sit_at_the_statement_start
              (frontend := frontend) (utils := SpecModel.utils)) as [Hqt4 Hutc].
  split.
  - exact (Hqt4 (allFixitsOn ∅) operatorCallOnMacro _ eq_refl).
  - exact (Hutc (allFixitsOn ∅) toTime_tChainNoEnd _ eq_refl).
Defined.

Lemma X10_witness :
  exists evs,
    events (QDateTimeUtc.VisitStmt (allFixitsOn ∅) toTime_tChainNoEnd) = Some evs /\
    exists loc fixitType, In (QueueManualFixitWarning loc fixitType) evs.
Proof.
  destruct (X10_utc_notice_iff_enabled_fix_fails (allFixitsOn ∅) toTime_tChainNoEnd)
    as (evs & Hev & Hiff).
  exists evs. split; [exact Hev|]. apply Hiff.
  exists true. split; [exact toTime_tChainNoEnd_matches|]. split; reflexivity.
Defined.

Lemma X11_witness :
  QDateTimeUtc.VisitStmt allFixitsOff toUTCChain =
    Some (tt, [EmitWarning (mkLoc 100) "Use QDateTime::currentDateTimeUtc() instead" []]).
Proof.
  exact (X11_utc_fixit_disabled_is_text_only allFixitsOff toUTCChain false
           toUTCChain_matches eq_refl).
Defined.

Lemma X12_witness :
  exists loc fixitType,
    In (QueueManualFixitWarning loc fixitType)
       [PrintLocation (mkLoc (2 ^ 32 - 5)); PrintLocation invalidLoc;
        PrintLocation invalidLoc;
        QueueManualFixitWarning (mkLoc (2 ^ 32 - 5)) Qt4_QStringFromArray.FixItToFromLatin1;
        EmitWarning (mkLoc (2 ^ 32 - 5)) "QString(const char *) ctor being called" []].
Proof.
  assert (Hev : events (Qt4_QStringFromArray.VisitStmt (allFixitsOn temporaryContext)
                          (ctorCall (mkLoc (2 ^ 32 - 5)))) =
                Some [PrintLocation (mkLoc (2 ^ 32 - 5)); PrintLocation invalidLoc;
                      PrintLocation invalidLoc;
                      QueueManualFixitWarning (mkLoc (2 ^ 32 - 5))
                        Qt4_QStringFromArray.FixItToFromLatin1;
                      EmitWarning (mkLoc (2 ^ 32 - 5))
                        "QString(const char *) ctor being called" []]).
  { vm_compute. reflexivity. }
  apply (proj2 (X12_qt4_notice_only_from_failed_replace
                  (allFixitsOn temporaryContext) (ctorCall (mkLoc (2 ^ 32 - 5))) _ Hev)).
  split; [reflexivity|]. split; [exists true; apply ctorCall_matches|].
  split; [exists bindTemporary, functionalCast; repeat split; reflexivity|].
  split; reflexivity.
Defined.

Lemma X13_witness :
  Qt4_QStringFromArray.VisitStmt (allFixitsOn ∅) operatorCall =
  Qt4_QStringFromArray.VisitStmt allFixitsOff operatorCall.
Proof.
  apply X13_qt4_does_not_read_the_fixit_toggle. reflexivity.
Defined.

Lemma X14_witness :
  [CreateInsertion (mkLoc 305) "QString::fromLatin1("; CreateInsertion (mkLoc 310) ")"] = [] \/
  exists range,
    range_isValid range = true /\
    [CreateInsertion (mkLoc 305) "QString::fromLatin1("; CreateInsertion (mkLoc 310) ")"] =
      insertParentMethodCall "QString::fromLatin1" range [].
Proof.
  apply (X14_wrapping_edits_come_from_valid_ranges operatorCall). left. reflexivity.
Defined.

Lemma X15_witness :
  [CreateReplacement (mkRange (macroLoc 60) (macroLoc 65)) "QString::fromLatin1"] = [] \/
  exists rangeEnd,
    loc_isValid rangeEnd = true /\
    [CreateReplacement (mkRange (macroLoc 60) (macroLoc 65)) "QString::fromLatin1"] =
      [CreateReplacement (mkRange (getLocStart (ctorCall (macroLoc 60))) rangeEnd)
                         "QString::fromLatin1"].
Proof.
  apply (X15_replace_edit_ends_at_a_valid_location (ctorCall (macroLoc 60))). reflexivity.
Defined.

End Concrete_further.
